(** * Colour conversions of [color_converter.py]

    A shallow embedding of [ColorConverter] (the four static conversion
    methods), of the handlers of [ColorSliderGroup] and [ColorModelGroup]
    and of the handlers of the window, [ColorPickerApp].

    Python's [float] is IEEE 754 binary64 with round-to-nearest-even; it is
    modelled by the kernel's primitive [float], which is the same format
    with the same rounding.  Python's [int] is modelled by [Z].  Operations
    that raise in Python ([ZeroDivisionError], [OverflowError],
    [ValueError]) return [None]. *)

From Stdlib Require Import ZArith Bool List Lia.
From Stdlib Require Import Uint63 Floats.
From Stdlib Require Import Strings.String Strings.Ascii DecimalString.
Import ListNotations.

(** ** The error monad *)

Module Py.

Definition bind {A B : Type} (m : option A) (k : A -> option B) : option B :=
  match m with
  | Some a => k a
  | None => None
  end.

Notation "'do' x <- m ; k" := (bind m (fun x => k))
  (at level 10, x name, m at level 100, k at level 200).

Notation "'do' ' p <- m ; k" := (bind m (fun x => let 'p := x in k))
  (at level 10, p strict pattern, m at level 100, k at level 200).

Open Scope float_scope.

(** *** int -> float

    [float(n)] for a Python int; exact whenever [|n| < 2^53], correctly
    rounded up to [2^63], which covers every integer the program handles
    (slider values are machine integers). *)
Definition of_int (n : Z) : float :=
  match n with
  | Z0 => 0
  | Zpos _ => of_uint63 (Uint63.of_Z n)
  | Zneg p => - of_uint63 (Uint63.of_Z (Zpos p))
  end.

(** *** float / float: [ZeroDivisionError] on a zero divisor *)
Definition truediv (x y : float) : option float :=
  if y =? 0 then None else Some (x / y).

(** *** builtin [max] and [min] of three arguments

    CPython keeps the first item and replaces it when a later item
    compares strictly greater (smaller). *)
Definition max2 (a b : float) : float := if a <? b then b else a.
Definition min2 (a b : float) : float := if b <? a then b else a.
Definition max3 (a b c : float) : float := max2 (max2 a b) c.
Definition min3 (a b c : float) : float := min2 (min2 a b) c.

(** *** C [fmod]: the exact remainder of the truncated quotient, with the
    sign of the dividend. *)
Definition fmod (x y : float) : float :=
  if is_nan x || is_nan y || is_infinity x || PrimFloat.is_zero y then nan
  else if is_infinity y then x
  else if abs x <? abs y then x
  else
    match Prim2SF x, Prim2SF y with
    | S754_finite sx mx ex, S754_finite _ my ey =>
        let e := Z.min ex ey in
        let X := (Zpos mx * 2 ^ (ex - e))%Z in
        let Y := (Zpos my * 2 ^ (ey - e))%Z in
        let r := Z.ldexp (of_int (X mod Y)) e in
        if sx then - r else r
    | _, _ => x
    end.

(** *** float % float, as [float_rem] of CPython does it on top of [fmod] *)
Definition mod_ (x y : float) : option float :=
  if y =? 0 then None
  else
    let m := fmod x y in
    if m =? 0 then Some (if get_sign y then PrimFloat.neg_zero else PrimFloat.zero)
    else if xorb (y <? 0) (m <? 0) then Some (m + y)
    else Some m.

(** *** [round(x)] with one argument: the nearest integer, ties to even,
    of the exact value of [x]; raises on an infinity or a NaN.

    With [frshiftexp x = (f, se)] and [mant = normfr_mantissa f], the
    53-bit integer mantissa, [|x| = mant * 2^(se - 2154)] exactly
    ([2154 = shift + prec]); so [mant] has [k = 2154 - se] fractional
    bits, which are compared with one half. *)
Fixpoint Z_of_uint (fuel : nat) (i : int) : Z :=
  match fuel with
  | O => 0%Z
  | S n =>
      if (i =? 0)%uint63 then 0%Z
      else (if Uint63.is_even i then Z.double else Z.succ_double)
             (Z_of_uint n (i >> 1)%uint63)
  end.

(** The integer nearest to [mant / 2^k], ties to even ([0 < k < 63]). *)
Definition nearest (mant k : int) : int :=
  let q := (mant >> k)%uint63 in
  let rest := (mant land ((1 << k) - 1))%uint63 in
  let half := (1 << (k - 1))%uint63 in
  match (rest ?= half)%uint63 with
  | Lt => q
  | Gt => (q + 1)%uint63
  | Eq => if Uint63.is_even q then q else (q + 1)%uint63
  end.

Definition abs_round (x : float) : Z :=
  let (f, se) := frshiftexp x in
  let mant := normfr_mantissa f in
  if (se <=? 2091)%uint63 then 0%Z
  else if (se <? 2154)%uint63 then Z_of_uint 63 (nearest mant (2154 - se)%uint63)
  else (Z_of_uint 63 mant * 2 ^ (Z_of_uint 63 se - 2154))%Z.

Definition round (x : float) : option Z :=
  if is_nan x || is_infinity x then None
  else Some (if x <? 0 then (- abs_round x)%Z else abs_round x).

End Py.

Import Py.

(** ** [class ColorConverter] *)

Module ColorConverter.

Open Scope float_scope.

Definition f255 : float := 255.
Definition f100 : float := 100.
Definition f360 : float := 360.

(** [def rgb_to_cmyk(r, g, b)] *)
Definition rgb_to_cmyk (r g b : Z) : option (Z * Z * Z * Z) :=
  if ((r =? 0) && (g =? 0) && (b =? 0))%Z then Some (0, 0, 0, 100)%Z
  else
    let r_norm := of_int r / f255 in
    let g_norm := of_int g / f255 in
    let b_norm := of_int b / f255 in
    let k := 1 - max3 r_norm g_norm b_norm in
    do c <- (if negb (1 - k =? 0) then truediv (1 - r_norm - k) (1 - k) else Some 0);
    do m <- (if negb (1 - k =? 0) then truediv (1 - g_norm - k) (1 - k) else Some 0);
    do y <- (if negb (1 - k =? 0) then truediv (1 - b_norm - k) (1 - k) else Some 0);
    do c' <- round (c * 100);
    do m' <- round (m * 100);
    do y' <- round (y * 100);
    do k' <- round (k * 100);
    Some (c', m', y', k').

(** [def cmyk_to_rgb(c, m, y, k)] *)
Definition cmyk_to_rgb (c m y k : Z) : option (Z * Z * Z) :=
  let c_norm := of_int c / f100 in
  let m_norm := of_int m / f100 in
  let y_norm := of_int y / f100 in
  let k_norm := of_int k / f100 in
  let r := 255 * (1 - c_norm) * (1 - k_norm) in
  let g := 255 * (1 - m_norm) * (1 - k_norm) in
  let b := 255 * (1 - y_norm) * (1 - k_norm) in
  do r' <- round r;
  do g' <- round g;
  do b' <- round b;
  Some (Z.max 0 (Z.min 255 r'), Z.max 0 (Z.min 255 g'), Z.max 0 (Z.min 255 b')).

(** [def rgb_to_hls(r, g, b)]; the returned tuple is, in this order,
    [round(h % 360)], [round(s * 100)], [round(l * 100)]. *)
Definition rgb_to_hls (r g b : Z) : option (Z * Z * Z) :=
  let r_norm := of_int r / f255 in
  let g_norm := of_int g / f255 in
  let b_norm := of_int b / f255 in
  let cmax := max3 r_norm g_norm b_norm in
  let cmin := min3 r_norm g_norm b_norm in
  let delta := cmax - cmin in
  let l := (cmax + cmin) / 2 in
  do '(h, s) <-
    (if delta =? 0 then Some (0, 0)
     else
       do s <- (if negb (l =? 0.5) then truediv delta (1 - abs (2 * l - 1))
                else Some 1);
       do h <-
         (if cmax =? r_norm then
            do x <- truediv (g_norm - b_norm) delta;
            do x6 <- mod_ x 6;
            Some (60 * x6)
          else if cmax =? g_norm then
            do x <- truediv (b_norm - r_norm) delta;
            Some (60 * (x + 2))
          else
            do x <- truediv (r_norm - g_norm) delta;
            Some (60 * (x + 4)));
       Some (h, s));
  do h360 <- mod_ h f360;
  do h' <- round h360;
  do s' <- round (s * 100);
  do l' <- round (l * 100);
  Some (h', s', l').

(** The nested [def hue_to_rgb(p, q, t)] of [hls_to_rgb] *)
Definition hue_to_rgb (p q t : float) : float :=
  let t := if t <? 0 then t + 1 else t in
  let t := if 1 <? t then t - 1 else t in
  if t <? 1 / 6 then p + (q - p) * 6 * t
  else if t <? 1 / 2 then q
  else if t <? 2 / 3 then p + (q - p) * (2 / 3 - t) * 6
  else p.

(** [def hls_to_rgb(h, l, s)] *)
Definition hls_to_rgb (h l s : Z) : option (Z * Z * Z) :=
  let h_norm := of_int h / f360 in
  let s_norm := of_int s / f100 in
  let l_norm := of_int l / f100 in
  let '(r, g, b) :=
    if s_norm =? 0 then (l_norm, l_norm, l_norm)
    else
      let q := if l_norm <? 0.5 then l_norm * (1 + s_norm)
               else l_norm + s_norm - l_norm * s_norm in
      let p := 2 * l_norm - q in
      (hue_to_rgb p q (h_norm + 1 / 3),
       hue_to_rgb p q h_norm,
       hue_to_rgb p q (h_norm - 1 / 3)) in
  do r' <- round (r * 255);
  do g' <- round (g * 255);
  do b' <- round (b * 255);
  Some (Z.max 0 (Z.min 255 r'), Z.max 0 (Z.min 255 g'), Z.max 0 (Z.min 255 b')).

End ColorConverter.

(** ** [class ColorSliderGroup]

    The widget is modelled by the part of its state that the handlers
    read and write: the slider's value and range (a [QSlider] keeps its
    value inside its range) and the text of the line edit.  A handler
    returns the new state and the [valueChanged(index, value)] signals it
    emitted, in order. *)

Module ColorSliderGroup.

Open Scope string_scope.
Open Scope Z_scope.

Record t : Type := mk {
  index : Z;
  min_val : Z;
  max_val : Z;
  slider_value : Z;
  input_text : string
}.

(** [str(n)] of a Python int *)
Definition str (n : Z) : string := NilZero.string_of_int (Z.to_int n).

(** [int(s)] of a Python str, for ASCII text: surrounding white space is
    dropped, then an optional sign and decimal digits, where single
    underscores may separate digits.  [None] stands for [ValueError]. *)
Definition is_space (c : ascii) : bool :=
  let n := nat_of_ascii c in
  ((9 <=? n) && (n <=? 13))%nat || (n =? 32)%nat.

Definition is_digit (c : ascii) : bool :=
  let n := nat_of_ascii c in ((48 <=? n) && (n <=? 57))%nat.

Fixpoint lstrip (s : string) : string :=
  match s with
  | String c s' => if is_space c then lstrip s' else s
  | EmptyString => EmptyString
  end.

Fixpoint rstrip (s : string) : string :=
  match s with
  | String c s' =>
      match rstrip s' with
      | EmptyString => if is_space c then EmptyString else String c EmptyString
      | r => String c r
      end
  | EmptyString => EmptyString
  end.

Fixpoint digits (s : string) (acc : Z) (after_digit : bool) : option Z :=
  match s with
  | EmptyString => if after_digit then Some acc else None
  | String c s' =>
      if is_digit c then
        digits s' (10 * acc + Z.of_nat (nat_of_ascii c - 48)) true
      else if Ascii.eqb c "_" then
        if after_digit then digits s' acc false else None
      else None
  end.

Definition int_of_str (s : string) : option Z :=
  match rstrip (lstrip s) with
  | String "-" s' => option_map Z.opp (digits s' 0 false)
  | String "+" s' => digits s' 0 false
  | s' => digits s' 0 false
  end.

(** [def on_slider_changed(self, value)] *)
Definition on_slider_changed (w : t) (value : Z) : t * list (Z * Z) :=
  (mk (index w) (min_val w) (max_val w) (slider_value w) (str value),
   [(index w, value)]).

(** [QSlider.setValue]: the value is bounded by the range, and the
    slider's own [valueChanged], which is connected to
    [on_slider_changed], fires when the value changes. *)
Definition slider_setValue (w : t) (value : Z) : t * list (Z * Z) :=
  let v := Z.max (min_val w) (Z.min (max_val w) value) in
  if (v =? slider_value w)%Z then (w, [])
  else on_slider_changed (mk (index w) (min_val w) (max_val w) v (input_text w)) v.

(** [def on_input_changed(self)]; [int_] is the builtin [int]. *)
Definition on_input_changed (int_ : string -> option Z) (w : t)
  : t * list (Z * Z) :=
  match int_ (input_text w) with
  | Some value =>
      let clamped_value := Z.max (min_val w) (Z.min (max_val w) value) in
      if negb (value =? clamped_value)%Z then
        let (w1, sig1) := slider_setValue w clamped_value in
        (mk (index w1) (min_val w1) (max_val w1) (slider_value w1)
            (str clamped_value),
         (sig1 ++ [(index w1, clamped_value)])%list)
      else (w, [(index w, value)])
  | None =>
      (mk (index w) (min_val w) (max_val w) (slider_value w)
          (str (slider_value w)), [])
  end.

(** [def __init__(self, label, min_val, max_val, default_val)] with
    [setup_ui]: the slider is given its range and then its value, which
    it bounds, before its signal is connected; the label is display
    only.  The record has one range for the attributes [min_val] and
    [max_val] and for the slider; they agree when
    [min_val <= max_val], as in every slider the application builds. *)
Definition __init__ (min_val max_val default_val : Z) : t :=
  mk (-1) min_val max_val (Z.max min_val (Z.min max_val default_val))
     (str default_val).

(** [def set_index(self, index)] *)
Definition set_index (w : t) (index : Z) : t :=
  mk index (min_val w) (max_val w) (slider_value w) (input_text w).

(** [def set_value(self, value)]: the signals of the slider are blocked,
    so the slider takes the value, bounded by its range, and
    [on_slider_changed] does not run; the field takes [str(value)]. *)
Definition set_value (w : t) (value : Z) : t :=
  mk (index w) (min_val w) (max_val w)
     (Z.max (min_val w) (Z.min (max_val w) value)) (str value).

End ColorSliderGroup.

(** ** [class ColorModelGroup]

    The group is its list [self.sliders].  [on_slider_changed] emits one
    [valuesChanged(values)]; it is modelled by the list it emits. *)

Module ColorModelGroup.

Open Scope Z_scope.

Definition t : Type := list ColorSliderGroup.t.

(** [def __init__(self, title, labels, ranges)] with [setup_ui]: one
    slider for every pair of [zip(labels, ranges)], numbered by
    [enumerate]. *)
Fixpoint sliders_from (i : Z) (labels : list string) (ranges : list (Z * Z * Z)) : t :=
  match labels, ranges with
  | _ :: labels', (min_val, max_val, default_val) :: ranges' =>
      ColorSliderGroup.set_index
        (ColorSliderGroup.__init__ min_val max_val default_val) i
      :: sliders_from (i + 1) labels' ranges'
  | _, _ => []
  end.

Definition setup_ui (labels : list string) (ranges : list (Z * Z * Z)) : t :=
  sliders_from 0 labels ranges.

(** [def on_slider_changed(self, index, value)] *)
Definition on_slider_changed (g : t) (index value : Z) : list Z :=
  map ColorSliderGroup.slider_value g.

(** [def set_values(self, values)]: [zip] stops at the shorter list. *)
Fixpoint set_values (g : t) (values : list Z) : t :=
  match g, values with
  | slider :: g', value :: values' =>
      ColorSliderGroup.set_value slider value :: set_values g' values'
  | _, _ => g
  end.

(** *** The signals of a slider, connected to [on_slider_changed]

    A handler of the slider at position [n] ran, left the slider as
    [w'] and emitted [signals]; every signal is delivered to
    [on_slider_changed].  A handler writes the value of its slider
    before its first signal leaves, so every delivery reads the sliders
    as the handler leaves them. *)
Fixpoint replace (g : t) (n : nat) (w' : ColorSliderGroup.t) : t :=
  match g, n with
  | [], _ => []
  | _ :: g', O => w' :: g'
  | w :: g', S n' => w :: replace g' n' w'
  end.

Definition deliver (g : t) (signals : list (Z * Z)) : list (list Z) :=
  map (fun '(index, value) => on_slider_changed g index value) signals.

Definition handled (g : t) (n : nat) (r : ColorSliderGroup.t * list (Z * Z))
  : t * list (list Z) :=
  let (w', signals) := r in
  let g' := replace g n w' in
  (g', deliver g' signals).

(** [editingFinished] of the field of slider [n] *)
Definition editing_finished (int_ : string -> option Z) (g : t) (n : nat)
  : t * list (list Z) :=
  match nth_error g n with
  | Some w => handled g n (ColorSliderGroup.on_input_changed int_ w)
  | None => (g, [])
  end.

(** Slider [n] is moved to [value]. *)
Definition slider_moved (g : t) (n : nat) (value : Z) : t * list (list Z) :=
  match nth_error g n with
  | Some w => handled g n (ColorSliderGroup.slider_setValue w value)
  | None => (g, [])
  end.

End ColorModelGroup.

(** ** [class ColorPickerApp]

    The window is modelled by [current_rgb], its three groups, the style
    sheet of the colour swatch and the text of the information label.
    A handler that raises returns [None]. *)

Module ColorPickerApp.

Import ColorConverter.
Open Scope string_scope.
Open Scope Z_scope.

Record t : Type := mk {
  current_rgb : Z * Z * Z;
  rgb_group : ColorModelGroup.t;
  cmyk_group : ColorModelGroup.t;
  hls_group : ColorModelGroup.t;
  color_display : string;
  color_info : string
}.

(** [QColor(r, g, b).name()] for channels in [[0, 255]]: [#rrggbb]. *)
Definition hex_digit (n : Z) : string :=
  String.substring (Z.to_nat n) 1 "0123456789abcdef".

Definition hex2 (n : Z) : string := hex_digit (n / 16) ++ hex_digit (n mod 16).

Definition QColor_name (r g b : Z) : string := "#" ++ hex2 r ++ hex2 g ++ hex2 b.

Definition newline : string := String "010" EmptyString.

(** [def update_color_display(self)] *)
Definition update_color_display (a : t) : option t :=
  let '(r, g, b) := current_rgb a in
  do '(c, m, y, k) <- rgb_to_cmyk r g b;
  do '(h, l, s) <- rgb_to_hls r g b;
  let str := ColorSliderGroup.str in
  Some (mk (current_rgb a) (rgb_group a) (cmyk_group a) (hls_group a)
          ("background-color: " ++ QColor_name r g b
           ++ "; border: 2px solid black;")
          ("RGB: (" ++ str r ++ ", " ++ str g ++ ", " ++ str b ++ ")"
           ++ newline
           ++ "CMYK: (" ++ str c ++ ", " ++ str m ++ ", " ++ str y ++ ", "
           ++ str k ++ ")" ++ newline
           ++ "HLS: (" ++ str h ++ ", " ++ str l ++ ", " ++ str s ++ ")")).

(** [def setup_ui(self)], with [self.current_rgb] of [__init__] *)
Definition setup_ui : t :=
  mk (128, 128, 128)
     (ColorModelGroup.setup_ui ["Red"; "Green"; "Blue"]
        [(0, 255, 128); (0, 255, 128); (0, 255, 128)])
     (ColorModelGroup.setup_ui ["Cyan"; "Magenta"; "Yellow"; "Black"]
        [(0, 100, 0); (0, 100, 0); (0, 100, 0); (0, 100, 0)])
     (ColorModelGroup.setup_ui ["Hue"; "Lightness"; "Saturation"]
        [(0, 360, 0); (0, 100, 50); (0, 100, 0)])
     "background-color: rgb(128, 128, 128); border: 2px solid black;"
     ("RGB: (128, 128, 128)" ++ newline ++ "CMYK: (0, 0, 0, 50)" ++ newline
      ++ "HLS: (0, 50, 0)").

(** [def __init__(self)] *)
Definition __init__ : option t := update_color_display setup_ui.

(** [def on_rgb_changed(self, values)] *)
Definition on_rgb_changed (a : t) (values : list Z) : option t :=
  match values with
  | [r; g; b] =>
      let r := Z.max 0 (Z.min 255 r) in
      let g := Z.max 0 (Z.min 255 g) in
      let b := Z.max 0 (Z.min 255 b) in
      do '(c, m, y, k) <- rgb_to_cmyk r g b;
      do '(h, l, s) <- rgb_to_hls r g b;
      update_color_display
        (mk (r, g, b) (rgb_group a)
            (ColorModelGroup.set_values (cmyk_group a) [c; m; y; k])
            (ColorModelGroup.set_values (hls_group a) [h; l; s])
            (color_display a) (color_info a))
  | _ => None
  end.

(** [def on_cmyk_changed(self, values)] *)
Definition on_cmyk_changed (a : t) (values : list Z) : option t :=
  match values with
  | [c; m; y; k] =>
      let c := Z.max 0 (Z.min 100 c) in
      let m := Z.max 0 (Z.min 100 m) in
      let y := Z.max 0 (Z.min 100 y) in
      let k := Z.max 0 (Z.min 100 k) in
      do '(r, g, b) <- cmyk_to_rgb c m y k;
      do '(h, l, s) <- rgb_to_hls r g b;
      update_color_display
        (mk (r, g, b)
            (ColorModelGroup.set_values (rgb_group a) [r; g; b])
            (cmyk_group a)
            (ColorModelGroup.set_values (hls_group a) [h; l; s])
            (color_display a) (color_info a))
  | _ => None
  end.

(** [def on_hls_changed(self, values)] *)
Definition on_hls_changed (a : t) (values : list Z) : option t :=
  match values with
  | [h; l; s] =>
      let h := Z.max 0 (Z.min 360 h) in
      let l := Z.max 0 (Z.min 100 l) in
      let s := Z.max 0 (Z.min 100 s) in
      do '(r, g, b) <- hls_to_rgb h l s;
      do '(c, m, y, k) <- rgb_to_cmyk r g b;
      update_color_display
        (mk (r, g, b)
            (ColorModelGroup.set_values (rgb_group a) [r; g; b])
            (ColorModelGroup.set_values (cmyk_group a) [c; m; y; k])
            (hls_group a)
            (color_display a) (color_info a))
  | _ => None
  end.

(** [def pick_color(self)]; [color] is the choice made in the dialog,
    [None] when the dialog was cancelled ([color.isValid()] is false). *)
Definition pick_color (a : t) (color : option (Z * Z * Z)) : option t :=
  match color with
  | Some (r, g, b) =>
      on_rgb_changed
        (mk (current_rgb a)
            (ColorModelGroup.set_values (rgb_group a) [r; g; b])
            (cmyk_group a) (hls_group a) (color_display a) (color_info a))
        [r; g; b]
  | None => Some a
  end.

(** *** The signals of the groups, connected to the handlers *)
Inductive model : Type := RGB | CMYK | HLS.

Definition group (a : t) (k : model) : ColorModelGroup.t :=
  match k with
  | RGB => rgb_group a
  | CMYK => cmyk_group a
  | HLS => hls_group a
  end.

Definition with_group (a : t) (k : model) (g : ColorModelGroup.t) : t :=
  match k with
  | RGB => mk (current_rgb a) g (cmyk_group a) (hls_group a)
              (color_display a) (color_info a)
  | CMYK => mk (current_rgb a) (rgb_group a) g (hls_group a)
               (color_display a) (color_info a)
  | HLS => mk (current_rgb a) (rgb_group a) (cmyk_group a) g
              (color_display a) (color_info a)
  end.

Definition handler (k : model) : t -> list Z -> option t :=
  match k with
  | RGB => on_rgb_changed
  | CMYK => on_cmyk_changed
  | HLS => on_hls_changed
  end.

(** The handler of a group runs once for every [valuesChanged]. *)
Fixpoint run (k : model) (a : t) (payloads : list (list Z)) : option t :=
  match payloads with
  | [] => Some a
  | values :: payloads' =>
      do a' <- handler k a values;
      run k a' payloads'
  end.

(** Slider [n] of the group [k] is moved to [value]. *)
Definition slider_moved (a : t) (k : model) (n : nat) (value : Z) : option t :=
  let (g, payloads) := ColorModelGroup.slider_moved (group a k) n value in
  run k (with_group a k g) payloads.

(** The field of slider [n] of the group [k] is left. *)
Definition editing_finished (int_ : string -> option Z)
  (a : t) (k : model) (n : nat) : option t :=
  let (g, payloads) := ColorModelGroup.editing_finished int_ (group a k) n in
  run k (with_group a k g) payloads.

End ColorPickerApp.

(** * Properties of the conversions *)

Import Py ColorConverter.
Open Scope Z_scope.

(** ** Statements *)

(** A channel of an RGB triple: an integer in [[0, 255]]. *)
Definition channel (x : Z) : Prop := 0 <= x <= 255.

(** Two RGB triples differ by at most [n] on every channel. *)
Definition within (n : Z) (p q : Z * Z * Z) : Prop :=
  let '(r, g, b) := p in
  let '(r', g', b') := q in
  Z.abs (r - r') <= n /\ Z.abs (g - g') <= n /\ Z.abs (b - b') <= n.


(** [cmyk_to_rgb( *rgb_to_cmyk(r, g, b))] *)
Definition cmyk_round_trip (r g b : Z) : option (Z * Z * Z) :=
  do '(c, m, y, k) <- rgb_to_cmyk r g b;
  cmyk_to_rgb c m y k.


(** The hue, lightness and saturation that [rgb_to_hls] computed, passed
    to the parameters [h], [l] and [s] of [hls_to_rgb]. *)
Definition hls_round_trip (r g b : Z) : option (Z * Z * Z) :=
  do '(h, s, l) <- rgb_to_hls r g b;
  hls_to_rgb h l s.

(** ** Enumeration of an integer interval *)

Fixpoint all_from (fuel : nat) (i : Z) (f : Z -> bool) : bool :=
  match fuel with
  | O => true
  | S n => f i && all_from n (i + 1) f
  end.

(** ** Checks run over an interval *)

(** The integer nearest to [n / 8], ties to even, in integer arithmetic;
    [round] is checked against it on the eighths, which are floats. *)
Definition half_even_eighth (n : Z) : Z :=
  let q := n / 8 in
  let r := n mod 8 in
  if r <? 4 then q
  else if 4 <? r then q + 1
  else if Z.even q then q else q + 1.

Definition round_eighth_check (n : Z) : bool :=
  match round (of_int n / 8)%float, round (- (of_int n / 8))%float with
  | Some a, Some b =>
      (a =? half_even_eighth n) && (b =? - half_even_eighth n)
  | _, _ => false
  end.

(** [rgb_to_hls(r, r, r)] is [(0, 0, round(r / 255 * 100))]. *)
Definition gray_hls_check (r : Z) : bool :=
  match round (of_int r / 255 * 100)%float, rgb_to_hls r r r with
  | Some v, Some (h, s, l) => (h =? 0) && (s =? 0) && (l =? v)
  | _, _ => false
  end.

(** [hls_to_rgb(0, l, 0)] is three times [round(l / 100 * 255)]. *)
Definition achromatic_check (l : Z) : bool :=
  match round (of_int l / 100 * 255)%float, hls_to_rgb 0 l 0 with
  | Some v, Some (r, g, b) => (r =? v) && (g =? v) && (b =? v)
  | _, _ => false
  end.


(** The normalised channel [x / 255.0] keeps the order of the integers. *)
Definition norm_order_check (i j : Z) : bool :=
  Bool.eqb (of_int i / f255 <? of_int j / f255)%float (i <? j).


(** [rgb_to_cmyk] and [cmyk_to_rgb] channel by channel: the C, M or Y of a
    channel [x] depends on [x] and on the largest channel [M] only, K on
    [M] only, and a channel of the result of [cmyk_to_rgb] on its own
    percentage and K. *)
Definition cmyk_chan (x M : Z) : option Z :=
  let k := (1 - of_int M / f255)%float in
  do c <- (if negb (1 - k =? 0)%float
           then truediv (1 - of_int x / f255 - k)%float (1 - k)%float
           else Some 0%float);
  round (c * 100)%float.

Definition cmyk_key (M : Z) : option Z :=
  round ((1 - of_int M / f255) * 100)%float.

Definition rgb_chan (c k : Z) : option Z :=
  do v <- round (255 * (1 - of_int c / f100) * (1 - of_int k / f100))%float;
  Some (Z.max 0 (Z.min 255 v)).

Definition cmyk_pair_check (M x : Z) : bool :=
  if x <=? M then
    match cmyk_chan x M, cmyk_key M with
    | Some c, Some k =>
        match rgb_chan c k with
        | Some x' => Z.abs (x - x') <=? 2
        | None => false
        end
    | _, _ => false
    end
  else true.

(** ** The hue, checked on machine integers

    [round_le x n]: the magnitude of [round(x)] is at most [n]; the same
    computation as [abs_round], without the conversion to [Z]. *)
Definition round_le (x : float) (n : int) : bool :=
  let (f, se) := frshiftexp x in
  let mant := normfr_mantissa f in
  if (se <=? 2091)%uint63 then true
  else if (se <? 2154)%uint63 then (nearest mant (2154 - se) <=? n)%uint63
  else false.

(** [hue_ok h]: [round(h % 360)] is computed without reduction
    ([0 <= h < 360]) and is at most 360. *)
Definition hue_ok (h : float) : bool :=
  (abs h <? 360)%float && negb (h <? 0)%float && round_le h 360.

(** The three expressions for the hue, one per largest channel, as
    [rgb_to_hls] writes them, from [x = (a - b) / delta]. *)
Definition hue_r (x : float) : option Z :=
  do x6 <- mod_ x 6;
  do h360 <- mod_ (60 * x6)%float f360;
  round h360.

Definition hue_g (x : float) : option Z :=
  do h360 <- mod_ (60 * (x + 2))%float f360;
  round h360.

Definition hue_b (x : float) : option Z :=
  do h360 <- mod_ (60 * (x + 4))%float f360;
  round h360.

(** [hue3 nM na nb]: with [nM] the largest normalised channel and [na],
    [nb] the two others, in the order in which the hue formula subtracts
    them, the three hue expressions pass [hue_ok]. *)
Definition hue3 (nM na nb : float) : bool :=
  let delta := (nM - min2 na nb)%float in
  if (delta =? 0)%float then true
  else
    let x := ((na - nb) / delta)%float in
    (abs x <? 6)%float
    && hue_ok (60 * (if (x <? 0)%float then x + 6 else x))%float
    && hue_ok (60 * (x + 2))%float
    && hue_ok (60 * (x + 4))%float.

(** The normalised channels [0 / 255.0], ..., [255 / 255.0]. *)
Definition norm_table : list float :=
  map (fun i => (of_int (Z.of_nat i) / f255)%float) (seq 0 256).

Fixpoint all_first (n : nat) (l : list float) (f : float -> bool) : bool :=
  match n, l with
  | S n', x :: l' => f x && all_first n' l' f
  | _, _ => true
  end.

(** Every largest channel [M] of [rest], with every two channels up to
    [M] of the table; [n] is the position of the head of [rest]. *)
Fixpoint hue_sweep (n : nat) (rest tbl : list float) : bool :=
  match rest with
  | [] => true
  | nM :: rest' =>
      all_first (S n) tbl (fun na => all_first (S n) tbl (fun nb => hue3 nM na nb))
      && hue_sweep (S n) rest' tbl
  end.

Definition norm_eq_check (i j : Z) : bool :=
  Bool.eqb (of_int i / f255 =? of_int j / f255)%float (i =? j).

(** Lightness and saturation of [rgb_to_hls], which depend on the largest
    channel [M] and the smallest channel [m] only: both are computed and
    rounded into [[0, 100]]. *)
Definition percent (o : option Z) : bool :=
  match o with
  | Some v => (0 <=? v) && (v <=? 100)
  | None => false
  end.

Definition lightness (M m : Z) : float :=
  ((of_int M / f255 + of_int m / f255) / 2)%float.

Definition saturation (M m : Z) : option float :=
  let delta := (of_int M / f255 - of_int m / f255)%float in
  let l := lightness M m in
  if negb (l =? 0.5)%float then truediv delta (1 - abs (2 * l - 1))%float
  else Some 1%float.

Definition sl_check (M m : Z) : bool :=
  if m <=? M then
    percent (round (lightness M m * 100)%float)
    && (if (of_int M / f255 - of_int m / f255 =? 0)%float then true
        else match saturation M m with
             | Some s => percent (round (s * 100)%float)
             | None => false
             end)
  else true.

(** ** Checks for the ranges and the special values of the conversions *)

(** A percentage of CMYK, a lightness or a saturation: an integer in
    [[0, 100]]. *)
Definition percentage (x : Z) : Prop := 0 <= x <= 100.

(** The four percentages of [rgb_to_cmyk], channel by channel. *)
Definition cmyk_range_check (M x : Z) : bool :=
  if x <=? M then percent (cmyk_chan x M) && percent (cmyk_key M) else true.

(** The largest channel gets no ink. *)
Definition cmyk_brightest_check (M : Z) : bool :=
  match cmyk_chan M M with
  | Some 0 => true
  | _ => false
  end.

(** A channel of [cmyk_to_rgb] before [max(0, min(255, ...))]. *)
Definition rgb_raw (c k : Z) : option Z :=
  round (255 * (1 - of_int c / f100) * (1 - of_int k / f100))%float.

Definition rgb_raw_check (c k : Z) : bool :=
  match rgb_raw c k with
  | Some v => (0 <=? v) && (v <=? 255)
  | None => false
  end.

(** One more percent of ink, or of key, does not make a channel larger. *)
Definition rgb_raw_step_check (c k : Z) : bool :=
  match rgb_raw c k, rgb_raw (c + 1) k, rgb_raw c (k + 1) with
  | Some v, Some vc, Some vk => (vc <=? v) && (vk <=? v)
  | _, _, _ => false
  end.


(** The key of the channel that [cmyk_to_rgb] computes without ink is the
    key it was computed from; that channel is 0 for the key 100 only. *)
Definition key_round_trip_check (k : Z) : bool :=
  match rgb_raw 0 k with
  | Some v =>
      if v =? 0 then k =? 100
      else match cmyk_key v with
           | Some k' => k' =? k
           | None => false
           end
  | None => false
  end.

(** [delta] of [rgb_to_hls] is zero for equal channels only. *)
Definition delta_check (i j : Z) : bool :=
  Bool.eqb (of_int i / f255 - of_int j / f255 =? 0)%float (i =? j).

(** The lightness is the float [0.5] when the largest and the smallest
    channel add up to 255. *)
Definition is_value (o : option Z) (v : Z) : bool :=
  match o with
  | Some x => x =? v
  | None => false
  end.

Definition half_lightness_check (M : Z) : bool :=
  (lightness M (255 - M) =? 0.5)%float
  && is_value (round (lightness M (255 - M) * 100)%float) 50.

(** [rgb_to_hls] over the largest and the smallest channel: the hue by
    the first largest channel, saturation and lightness from the two
    extremes. *)
Definition hue_of (r g b : Z) : option Z :=
  let M := Z.max (Z.max r g) b in
  let m := Z.min (Z.min r g) b in
  let delta := (of_int M / f255 - of_int m / f255)%float in
  if M =? r then hue_r ((of_int g / f255 - of_int b / f255) / delta)%float
  else if M =? g then hue_g ((of_int b / f255 - of_int r / f255) / delta)%float
  else hue_b ((of_int r / f255 - of_int g / f255) / delta)%float.

Definition sl_of (M m : Z) : option (Z * Z) :=
  if (of_int M / f255 - of_int m / f255 =? 0)%float then
    do l' <- round (lightness M m * 100)%float;
    Some (0, l')
  else
    do s <- saturation M m;
    do s' <- round (s * 100)%float;
    do l' <- round (lightness M m * 100)%float;
    Some (s', l').

Definition hls_by_extremes (r g b : Z) : option (Z * Z * Z) :=
  let M := Z.max (Z.max r g) b in
  let m := Z.min (Z.min r g) b in
  if (of_int M / f255 - of_int m / f255 =? 0)%float then
    do l' <- round (lightness M m * 100)%float;
    Some (0, 0, l')
  else
    do s <- saturation M m;
    do h' <- hue_of r g b;
    do s' <- round (s * 100)%float;
    do l' <- round (lightness M m * 100)%float;
    Some (h', s', l').

(** The hue of a triple with two equal channels, by the position of the
    channels [M > m]: the six multiples of 60. *)
Definition pure_hue_check (M m : Z) : bool :=
  if m <? M then
    is_value (hue_of M m m) 0 && is_value (hue_of M M m) 60
    && is_value (hue_of m M m) 120 && is_value (hue_of m M M) 180
    && is_value (hue_of m m M) 240 && is_value (hue_of M m M) 300
  else true.

(** Two results of [hls_to_rgb] are the same triple. *)
Definition eq_rgb (p q : option (Z * Z * Z)) : bool :=
  match p, q with
  | Some (r, g, b), Some (r', g', b') => (r =? r') && (g =? g') && (b =? b')
  | _, _ => false
  end.

Definition hue_wrap_check (l s : Z) : bool :=
  eq_rgb (hls_to_rgb 360 l s) (hls_to_rgb 0 l s).

Definition extreme_lightness_check (h s : Z) : bool :=
  eq_rgb (hls_to_rgb h 0 s) (Some (0, 0, 0))
  && eq_rgb (hls_to_rgb h 100 s) (Some (255, 255, 255)).

(** ** The sliders of the window *)

(** The value of a slider is inside its range, as a [QSlider] keeps it. *)
Definition bounded (w : ColorSliderGroup.t) : bool :=
  (ColorSliderGroup.min_val w <=? ColorSliderGroup.slider_value w)
  && (ColorSliderGroup.slider_value w <=? ColorSliderGroup.max_val w).

(** The sliders of a group have the given ranges, one by one. *)
Fixpoint has_ranges (g : ColorModelGroup.t) (ranges : list (Z * Z)) : bool :=
  match g, ranges with
  | [], [] => true
  | w :: g', (lo, hi) :: ranges' =>
      (ColorSliderGroup.min_val w =? lo) && (ColorSliderGroup.max_val w =? hi)
      && bounded w && has_ranges g' ranges'
  | _, _ => false
  end.

Definition rgb_ranges : list (Z * Z) := [(0, 255); (0, 255); (0, 255)].
Definition cmyk_ranges : list (Z * Z) := [(0, 100); (0, 100); (0, 100); (0, 100)].
Definition hls_ranges : list (Z * Z) := [(0, 360); (0, 100); (0, 100)].

(** The groups of the window are the ones that [setup_ui] builds: three
    sliders over [[0, 255]], four over [[0, 100]], and one over
    [[0, 360]] with two over [[0, 100]]. *)
Definition as_built (a : ColorPickerApp.t) : bool :=
  has_ranges (ColorPickerApp.rgb_group a) rgb_ranges
  && has_ranges (ColorPickerApp.cmyk_group a) cmyk_ranges
  && has_ranges (ColorPickerApp.hls_group a) hls_ranges.

Definition in_range (range : Z * Z) (v : Z) : Prop :=
  fst range <= v <= snd range.

(** What the sliders of a group show. *)
Definition shown (g : ColorModelGroup.t) : list Z :=
  map ColorSliderGroup.slider_value g.

(** ** [hls_to_rgb] on every setting of the three HLS sliders

    [hls_floats]: the three floats of [hls_to_rgb] before they are
    scaled and rounded, from the normalised hue, lightness and
    saturation. *)
Definition hls_floats (h_norm l_norm s_norm : float) : float * float * float :=
  (if s_norm =? 0 then (l_norm, l_norm, l_norm)
   else
     let q := if l_norm <? 0.5 then l_norm * (1 + s_norm)
              else l_norm + s_norm - l_norm * s_norm in
     let p := 2 * l_norm - q in
     (hue_to_rgb p q (h_norm + 1 / 3),
      hue_to_rgb p q h_norm,
      hue_to_rgb p q (h_norm - 1 / 3)))%float.

(** Neither an infinity nor a NaN: what [round] accepts. *)
Definition is_number (x : float) : bool := (abs x <? infinity)%float.

Definition hls_check (h_norm l_norm s_norm : float) : bool :=
  let '(r, g, b) := hls_floats h_norm l_norm s_norm in
  is_number (r * 255) && is_number (g * 255) && is_number (b * 255).

(** The normalised hues [0 / 360.0], ..., [360 / 360.0] and the
    normalised percentages [0 / 100.0], ..., [100 / 100.0]. *)
Definition hue_table : list float :=
  map (fun i => (of_int (Z.of_nat i) / f360)%float) (seq 0 361).

Definition percent_table : list float :=
  map (fun i => (of_int (Z.of_nat i) / f100)%float) (seq 0 101).

(** [f] holds on every triple of the three tables. *)
Definition sweep3 (f : float -> float -> float -> bool) (A B C : list float)
  : bool :=
  forallb (fun a => forallb (fun b => forallb (f a b) C) B) A.

(** * Proofs *)

Lemma all_from_spec (f : Z -> bool) :
  forall fuel i, all_from fuel i f = true ->
  forall z, i <= z < i + Z.of_nat fuel -> f z = true.
Proof.
  induction fuel as [|n IH]; intros i H z Hz.
  - simpl in Hz. lia.
  - simpl in H. apply andb_true_iff in H. destruct H as [Hi Hn].
    destruct (Z.eq_dec z i) as [->|Hne]; [exact Hi|].
    apply (IH (i + 1)); [exact Hn|lia].
Qed.


(** ** The float operations of Python

    [round] rounds half to even, on both signs; [%] takes the sign of the
    divisor. *)

Lemma round_eighth_all : all_from 4000 0 round_eighth_check = true.
Proof. vm_compute. reflexivity. Qed.

Lemma round_eighth (n : Z) (Hn : 0 <= n < 4000) :
  round (of_int n / 8)%float = Some (half_even_eighth n) /\
  round (- (of_int n / 8))%float = Some (- half_even_eighth n).
Proof.
  pose proof (all_from_spec _ _ _ round_eighth_all n ltac:(simpl; lia)) as H.
  unfold round_eighth_check in H.
  destruct (round (of_int n / 8)%float) as [a|]; [|discriminate].
  destruct (round (- (of_int n / 8))%float) as [b|]; [|discriminate].
  apply andb_true_iff in H. destruct H as [Ha Hb].
  apply Z.eqb_eq in Ha, Hb. subst. split; reflexivity.
Qed.

Lemma round_half_even_examples :
  (round 0.5%float = Some 0) /\ (round 1.5%float = Some 2) /\
  (round 2.5%float = Some 2) /\ (round (-0.5)%float = Some 0) /\
  (round (-1.5)%float = Some (-2)) /\ (round 359.5%float = Some 360) /\
  (round 254.5%float = Some 254) /\ (round infinity = None) /\
  (round nan = None).
Proof. repeat split; reflexivity. Qed.

Lemma mod_examples :
  (mod_ (-1)%float 6%float = Some 5%float) /\
  (mod_ 725.5%float 360%float = Some 5.5%float) /\
  (mod_ (-725.5)%float 360%float = Some 354.5%float) /\
  (mod_ 360%float 360%float = Some 0%float) /\
  (mod_ 1%float 0%float = None).
Proof. repeat split; vm_compute; reflexivity. Qed.

(** ** Floats and machine integers *)

Lemma to_Z_rec_0 : forall n, to_Z_rec n 0%uint63 = 0.
Proof. induction n as [|n IH]; [reflexivity|]. simpl. exact (f_equal Z.double IH). Qed.

Lemma Z_of_uint_rec : forall n i, Z_of_uint n i = to_Z_rec n i.
Proof.
  induction n as [|n IH]; intros i; [reflexivity|].
  cbn [Z_of_uint to_Z_rec].
  destruct (i =? 0)%uint63 eqn:E.
  - apply Uint63.eqb_spec in E. subst i. symmetry. exact (to_Z_rec_0 (S n)).
  - rewrite IH. reflexivity.
Qed.

Lemma Z_of_uint_spec (i : int) : Z_of_uint 63 i = Uint63.to_Z i.
Proof. apply Z_of_uint_rec. Qed.

Lemma Prim2SF_infinity : Prim2SF infinity = S754_infinity false.
Proof. reflexivity. Qed.

Lemma SFeqb_refl_finite s m e : SFeqb (S754_finite s m e) (S754_finite s m e) = true.
Proof.
  unfold SFeqb, SFcompare. rewrite Z.compare_refl, Pos.compare_cont_refl.
  destruct s; reflexivity.
Qed.

(** A float whose magnitude is below another float is a number. *)
Lemma abs_ltb_finite (x c : float) :
  (abs x <? c)%float = true -> is_nan x = false /\ is_infinity x = false.
Proof.
  intros H. rewrite FloatAxioms.ltb_spec, abs_spec in H.
  unfold is_nan, is_infinity.
  rewrite !FloatAxioms.eqb_spec, abs_spec, Prim2SF_infinity.
  destruct (Prim2SF x) as [s|s| |s m e]; cbn [SFabs] in *.
  - split; reflexivity.
  - destruct (Prim2SF c) as [s'|[|]| |s' m' e']; discriminate.
  - discriminate.
  - rewrite SFeqb_refl_finite. split; reflexivity.
Qed.

(** [x % c] when [|x| < |c|]: no reduction, only the sign rule of Python. *)
Lemma mod_small (x c : float) :
  (c =? 0)%float = false -> is_nan c = false -> is_infinity c = false ->
  (abs x <? abs c)%float = true ->
  mod_ x c =
  Some (if (x =? 0)%float then (if get_sign c then PrimFloat.neg_zero else PrimFloat.zero)
        else if xorb (c <? 0)%float (x <? 0)%float then (x + c)%float else x).
Proof.
  intros Hc0 Hcn Hci Hlt. destruct (abs_ltb_finite _ _ Hlt) as [Hxn Hxi].
  unfold mod_, fmod. rewrite Hc0.
  change (PrimFloat.is_zero c) with (c =? 0)%float.
  rewrite Hxn, Hcn, Hxi, Hc0, Hci, Hlt. cbn [orb].
  destruct (x =? 0)%float; [reflexivity|].
  destruct (xorb (c <? 0)%float (x <? 0)%float); reflexivity.
Qed.

Lemma mod_6 (x : float) :
  (abs x <? 6)%float = true ->
  mod_ x 6 = Some (if (x =? 0)%float then 0%float
                   else if (x <? 0)%float then (x + 6)%float else x).
Proof. intros H. rewrite mod_small by (reflexivity || exact H). reflexivity. Qed.

Lemma mod_360 (h : float) :
  (abs h <? 360)%float = true ->
  mod_ h f360 = Some (if (h =? 0)%float then 0%float
                      else if (h <? 0)%float then (h + f360)%float else h).
Proof. intros H. rewrite mod_small by (reflexivity || exact H). reflexivity. Qed.

Lemma round_le_spec (x : float) (n : int) :
  round_le x n = true -> 0 <= abs_round x <= Uint63.to_Z n.
Proof.
  unfold round_le, abs_round. destruct (frshiftexp x) as [f se].
  destruct (se <=? 2091)%uint63.
  - intros _. pose proof (Uint63.to_Z_bounded n). lia.
  - destruct (se <? 2154)%uint63; [|discriminate].
    intros H. apply Uint63.leb_spec in H. rewrite Z_of_uint_spec.
    pose proof (Uint63.to_Z_bounded (nearest (normfr_mantissa f) (2154 - se))). lia.
Qed.

(** [round(h % 360)] for a hue [h] that passed [hue_ok]. *)
Lemma hue_ok_spec (h : float) :
  hue_ok h = true ->
  exists h', (do h360 <- mod_ h f360; round h360) = Some h' /\ 0 <= h' <= 360.
Proof.
  unfold hue_ok. rewrite !andb_true_iff, negb_true_iff.
  intros [[Hlt Hneg] Hle].
  rewrite (mod_360 _ Hlt). cbn [bind].
  destruct (h =? 0)%float.
  - exists 0. split; [reflexivity|lia].
  - rewrite Hneg. destruct (abs_ltb_finite _ _ Hlt) as [Hn Hi].
    unfold round. rewrite Hn, Hi, Hneg. cbn [orb].
    exists (abs_round h). split; [reflexivity|].
    apply round_le_spec in Hle. exact Hle.
Qed.

(** ** Normalised channels

    [x / 255.0] is increasing and one-to-one on the 256 channel values,
    so the largest of three normalised channels is the normalised
    largest channel. *)

Ltac channels := unfold channel in *; lia.

Tactic Notation "enum" constr(H) constr(z) "as" ident(H') :=
  pose proof (all_from_spec _ _ _ H z ltac:(simpl; lia)) as H'.

Lemma norm_order_all :
  all_from 256 0 (fun i => all_from 256 0 (norm_order_check i)) = true.
Proof. vm_compute. reflexivity. Qed.

Lemma norm_eq_all :
  all_from 256 0 (fun i => all_from 256 0 (norm_eq_check i)) = true.
Proof. vm_compute. reflexivity. Qed.

Lemma norm_ltb (i j : Z) (Hi : channel i) (Hj : channel j) :
  (of_int i / f255 <? of_int j / f255)%float = (i <? j).
Proof.
  unfold channel in *.
  enum norm_order_all i as H. enum H j as H'.
  unfold norm_order_check in H'. apply eqb_prop in H'. exact H'.
Qed.

Lemma norm_eqb (i j : Z) (Hi : channel i) (Hj : channel j) :
  (of_int i / f255 =? of_int j / f255)%float = (i =? j).
Proof.
  unfold channel in *.
  enum norm_eq_all i as H. enum H j as H'.
  unfold norm_eq_check in H'. apply eqb_prop in H'. exact H'.
Qed.

Lemma channel_max (i j : Z) : channel i -> channel j -> channel (Z.max i j).
Proof. channels. Qed.

Lemma channel_min (i j : Z) : channel i -> channel j -> channel (Z.min i j).
Proof. channels. Qed.

Create HintDb channel_db.
#[local] Hint Resolve channel_max channel_min : channel_db.

Lemma max2_norm (i j : Z) (Hi : channel i) (Hj : channel j) :
  max2 (of_int i / f255) (of_int j / f255) = (of_int (Z.max i j) / f255)%float.
Proof.
  unfold max2. rewrite norm_ltb by assumption.
  destruct (Z.ltb_spec i j).
  - rewrite Z.max_r by lia. reflexivity.
  - rewrite Z.max_l by lia. reflexivity.
Qed.

Lemma min2_norm (i j : Z) (Hi : channel i) (Hj : channel j) :
  min2 (of_int i / f255) (of_int j / f255) = (of_int (Z.min i j) / f255)%float.
Proof.
  unfold min2. rewrite norm_ltb by assumption.
  destruct (Z.ltb_spec j i).
  - rewrite Z.min_r by lia. reflexivity.
  - rewrite Z.min_l by lia. reflexivity.
Qed.

(** ** Single conversions *)

(** C7: [rgb_to_cmyk(0, 0, 0)] is [(0, 0, 0, 100)], by the special case
    that comes before any division. *)
Theorem rgb_to_cmyk_black : rgb_to_cmyk 0 0 0 = Some (0, 0, 0, 100).
Proof. reflexivity. Qed.

(** C6: [rgb_to_hls(255, 0, 0)] is the tuple [(0, 100, 50)]. *)
Theorem rgb_to_hls_red : rgb_to_hls 255 0 0 = Some (0, 100, 50).
Proof. vm_compute. reflexivity. Qed.

Lemma gray_hls_all : all_from 256 0 gray_hls_check = true.
Proof. vm_compute. reflexivity. Qed.

(** C5: on a gray [(r, r, r)] the function returns hue 0, then 0, then
    [round(r / 255 * 100)]: the lightness is the third component of the
    returned tuple and the saturation the second, where the callers
    unpack [h, l, s]. *)
Theorem rgb_to_hls_gray (r : Z) (Hr : channel r) :
  exists v, round (of_int r / 255 * 100)%float = Some v /\
            rgb_to_hls r r r = Some (0, 0, v).
Proof.
  pose proof (all_from_spec _ _ _ gray_hls_all r) as H.
  unfold channel in Hr. specialize (H ltac:(simpl; lia)).
  unfold gray_hls_check in H.
  destruct (round (of_int r / 255 * 100)%float) as [v|]; [|discriminate].
  destruct (rgb_to_hls r r r) as [[[h s] l]|]; [|discriminate].
  apply andb_true_iff in H. destruct H as [H Hl].
  apply andb_true_iff in H. destruct H as [Hh Hs].
  apply Z.eqb_eq in Hh, Hs, Hl. subst. exists v. split; reflexivity.
Qed.

Lemma rgb_to_hls_gray_witness :
  channel 255 /\
  exists v, round (of_int 255 / 255 * 100)%float = Some v /\
            rgb_to_hls 255 255 255 = Some (0, 0, v).
Proof.
  split; [unfold channel; lia|].
  apply (rgb_to_hls_gray 255). unfold channel. lia.
Defined.

Lemma hls_to_rgb_hue_irrelevant (h l : Z) : hls_to_rgb h l 0 = hls_to_rgb 0 l 0.
Proof. reflexivity. Qed.

Lemma achromatic_all : all_from 101 0 achromatic_check = true.
Proof. vm_compute. reflexivity. Qed.

(** C8: with saturation 0, [hls_to_rgb(h, l, 0)] is
    [round(l / 100 * 255)] on the three channels, whatever the hue. *)
Theorem hls_to_rgb_achromatic (h l : Z) (Hh : 0 <= h < 360) (Hl : 0 <= l <= 100) :
  exists v, round (of_int l / 100 * 255)%float = Some v /\
            hls_to_rgb h l 0 = Some (v, v, v).
Proof.
  rewrite hls_to_rgb_hue_irrelevant.
  pose proof (all_from_spec _ _ _ achromatic_all l) as H.
  specialize (H ltac:(simpl; lia)). unfold achromatic_check in H.
  destruct (round (of_int l / 100 * 255)%float) as [v|]; [|discriminate].
  destruct (hls_to_rgb 0 l 0) as [[[r g] b]|]; [|discriminate].
  apply andb_true_iff in H. destruct H as [H Hb].
  apply andb_true_iff in H. destruct H as [Hr Hg].
  apply Z.eqb_eq in Hr, Hg, Hb. subst. exists v. split; reflexivity.
Qed.

Lemma hls_to_rgb_achromatic_witness :
  (0 <= 200 < 360) /\ (0 <= 50 <= 100) /\
  exists v, round (of_int 50 / 100 * 255)%float = Some v /\
            hls_to_rgb 200 50 0 = Some (v, v, v).
Proof.
  split; [lia|]. split; [lia|].
  apply (hls_to_rgb_achromatic 200 50); lia.
Defined.

(** ** The text field of a slider *)

(** C9: when the text of the field is not an integer, the handler writes
    the slider's current value back into the field, leaves the slider
    alone and emits no [valueChanged]: nothing reaches the conversions. *)
Theorem on_input_changed_invalid
  (int_ : string -> option Z) (w : ColorSliderGroup.t)
  (Hbad : int_ (ColorSliderGroup.input_text w) = None) :
  ColorSliderGroup.on_input_changed int_ w =
  (ColorSliderGroup.mk (ColorSliderGroup.index w) (ColorSliderGroup.min_val w)
     (ColorSliderGroup.max_val w) (ColorSliderGroup.slider_value w)
     (ColorSliderGroup.str (ColorSliderGroup.slider_value w)),
   []).
Proof. unfold ColorSliderGroup.on_input_changed. rewrite Hbad. reflexivity. Qed.

Lemma on_input_changed_invalid_witness :
  ColorSliderGroup.int_of_str
    (ColorSliderGroup.input_text (ColorSliderGroup.mk 0 0 255 128 "12a")) = None /\
  ColorSliderGroup.on_input_changed ColorSliderGroup.int_of_str
    (ColorSliderGroup.mk 0 0 255 128 "12a") =
  (ColorSliderGroup.mk 0 0 255 128 "128", []).
Proof.
  split; [reflexivity|].
  apply (on_input_changed_invalid ColorSliderGroup.int_of_str
           (ColorSliderGroup.mk 0 0 255 128 "12a")).
  reflexivity.
Defined.

(** ** CMYK, channel by channel *)


Lemma cmyk_pair_all :
  all_from 255 1 (fun M => all_from 256 0 (cmyk_pair_check M)) = true.
Proof. vm_compute. reflexivity. Qed.

Lemma cmyk_pair (M x : Z) (HM : 1 <= M <= 255) (Hx : 0 <= x <= M) :
  exists c k x', cmyk_chan x M = Some c /\ cmyk_key M = Some k /\
                 rgb_chan c k = Some x' /\ Z.abs (x - x') <= 2.
Proof.
  enum cmyk_pair_all M as H. enum H x as H'.
  unfold cmyk_pair_check in H'.
  destruct (Z.leb_spec x M); [|lia].
  destruct (cmyk_chan x M) as [c|]; [|discriminate].
  destruct (cmyk_key M) as [k|]; [|discriminate].
  destruct (rgb_chan c k) as [x'|] eqn:Ex; [|discriminate].
  apply Z.leb_le in H'. exists c, k, x'.
  split; [reflexivity|]. split; [reflexivity|]. split; [exact Ex|exact H'].
Qed.

Lemma cmyk_to_rgb_chan (c m y k r g b : Z) :
  rgb_chan c k = Some r -> rgb_chan m k = Some g -> rgb_chan y k = Some b ->
  cmyk_to_rgb c m y k = Some (r, g, b).
Proof.
  unfold rgb_chan, cmyk_to_rgb. cbv zeta. intros Hr Hg Hb.
  destruct (round (255 * (1 - of_int c / f100) * (1 - of_int k / f100))%float)
    as [rv|]; [|discriminate].
  destruct (round (255 * (1 - of_int m / f100) * (1 - of_int k / f100))%float)
    as [gv|]; [|discriminate].
  destruct (round (255 * (1 - of_int y / f100) * (1 - of_int k / f100))%float)
    as [bv|]; [|discriminate].
  simpl bind in *. congruence.
Qed.

(** ** The hue *)

Lemma hue_zero :
  exists h, (do h360 <- mod_ 0 f360; round h360) = Some h /\ 0 <= h <= 360.
Proof. exists 0. split; [reflexivity|lia]. Qed.

Lemma hue3_spec (nM na nb : float) :
  hue3 nM na nb = true ->
  (nM - min2 na nb =? 0)%float = false ->
  let x := ((na - nb) / (nM - min2 na nb))%float in
  (exists h, hue_r x = Some h /\ 0 <= h <= 360) /\
  (exists h, hue_g x = Some h /\ 0 <= h <= 360) /\
  (exists h, hue_b x = Some h /\ 0 <= h <= 360).
Proof.
  unfold hue3. cbv zeta. intros H Hd. rewrite Hd in H.
  rewrite !andb_true_iff in H. destruct H as [[[H6 Hr] Hg] Hb].
  split; [|split].
  - unfold hue_r. rewrite (mod_6 _ H6). cbn [bind].
    destruct ((na - nb) / (nM - min2 na nb) =? 0)%float.
    + exact hue_zero.
    + apply hue_ok_spec. exact Hr.
  - apply hue_ok_spec. exact Hg.
  - apply hue_ok_spec. exact Hb.
Qed.

Lemma all_first_spec (f : float -> bool) (d : float) :
  forall n l, all_first n l f = true ->
  forall i, (i < n)%nat -> (i < List.length l)%nat -> f (nth i l d) = true.
Proof.
  induction n as [|n IH]; intros l H i Hi Hl; [lia|].
  destruct l as [|x l]; [simpl in Hl; lia|].
  cbn [all_first] in H. apply andb_true_iff in H. destruct H as [Hx Hn].
  destruct i as [|i]; [exact Hx|].
  cbn [nth]. apply IH; [exact Hn|lia|simpl in Hl; lia].
Qed.

Lemma hue_sweep_spec (tbl : list float) (d : float) :
  forall rest n, hue_sweep n rest tbl = true ->
  forall k i j, (k < List.length rest)%nat ->
    (i <= n + k)%nat -> (j <= n + k)%nat ->
    (i < List.length tbl)%nat -> (j < List.length tbl)%nat ->
    hue3 (nth k rest d) (nth i tbl d) (nth j tbl d) = true.
Proof.
  induction rest as [|nM rest IH]; intros n H k i j Hk Hi Hj Hit Hjt.
  - simpl in Hk. lia.
  - cbn [hue_sweep] in H. apply andb_true_iff in H. destruct H as [Hhd Htl].
    destruct k as [|k].
    + cbn [nth].
      pose proof (all_first_spec _ d _ _ Hhd i ltac:(lia) Hit) as Ha.
      exact (all_first_spec _ d _ _ Ha j ltac:(lia) Hjt).
    + cbn [nth]. apply (IH (S n)); try assumption; simpl in Hk; lia.
Qed.

Lemma norm_table_length : List.length norm_table = 256%nat.
Proof. reflexivity. Qed.

Lemma norm_table_nth (z : Z) (Hz : channel z) :
  nth (Z.to_nat z) norm_table 0%float = (of_int z / f255)%float.
Proof.
  unfold channel in Hz. unfold norm_table.
  change 0%float with ((fun i => (of_int (Z.of_nat i) / f255)%float) 0%nat).
  rewrite map_nth, seq_nth by lia. simpl Nat.add. rewrite Z2Nat.id by lia.
  reflexivity.
Qed.

Lemma hue_sweep_all : hue_sweep 0 norm_table norm_table = true.
Proof. vm_cast_no_check (eq_refl true). Qed.

(** The hue of every triple of channels whose largest is [M]. *)
Lemma hue3_norm (M a b : Z) (HM : channel M) (Ha : 0 <= a <= M) (Hb : 0 <= b <= M) :
  hue3 (of_int M / f255) (of_int a / f255) (of_int b / f255) = true.
Proof.
  unfold channel in HM.
  rewrite <- (norm_table_nth M), <- (norm_table_nth a), <- (norm_table_nth b)
    by (unfold channel; lia).
  apply (hue_sweep_spec norm_table 0%float norm_table 0%nat hue_sweep_all);
    rewrite ?norm_table_length; lia.
Qed.

Lemma hue_facts (M a b : Z) (HM : channel M) (Ha : 0 <= a <= M) (Hb : 0 <= b <= M) :
  let delta := (of_int M / f255 - of_int (Z.min a b) / f255)%float in
  (delta =? 0)%float = false ->
  let x := ((of_int a / f255 - of_int b / f255) / delta)%float in
  (exists h, hue_r x = Some h /\ 0 <= h <= 360) /\
  (exists h, hue_g x = Some h /\ 0 <= h <= 360) /\
  (exists h, hue_b x = Some h /\ 0 <= h <= 360).
Proof.
  intros delta Hd x. subst x delta.
  pose proof (hue3_spec _ _ _ (hue3_norm M a b HM Ha Hb)) as H.
  unfold channel in HM.
  rewrite min2_norm in H by (unfold channel; lia).
  exact (H Hd).
Qed.

(** ** Lightness and saturation *)

Lemma sl_all : all_from 256 0 (fun M => all_from 256 0 (sl_check M)) = true.
Proof. vm_compute. reflexivity. Qed.

Lemma percent_spec (o : option Z) :
  percent o = true -> exists v, o = Some v /\ 0 <= v <= 100.
Proof.
  destruct o as [v|]; [|discriminate]. simpl.
  rewrite andb_true_iff, !Z.leb_le. intros H. exists v. split; [reflexivity|lia].
Qed.

Lemma sl_facts (M m : Z) (HM : channel M) (Hm : 0 <= m <= M) :
  (exists l', round (lightness M m * 100)%float = Some l' /\ 0 <= l' <= 100) /\
  ((of_int M / f255 - of_int m / f255 =? 0)%float = false ->
   exists s s', saturation M m = Some s /\
                round (s * 100)%float = Some s' /\ 0 <= s' <= 100).
Proof.
  unfold channel in HM.
  pose proof (all_from_spec _ _ _ sl_all M ltac:(simpl; lia)) as H.
  pose proof (all_from_spec _ _ _ H m ltac:(simpl; lia)) as H'.
  unfold sl_check in H'. destruct (Z.leb_spec m M); [|lia].
  apply andb_true_iff in H'. destruct H' as [Hl Hs]. split.
  - apply percent_spec. exact Hl.
  - intros Hd. rewrite Hd in Hs.
    destruct (saturation M m) as [s|]; [|discriminate].
    destruct (percent_spec _ Hs) as (s' & Es & Rs).
    exists s, s'. split; [reflexivity|]. split; assumption.
Qed.

(** ** The tail of [rgb_to_hls] *)

Lemma hls_finish (h s l : float) (h' s' l' : Z) :
  (do h360 <- mod_ h f360; round h360) = Some h' ->
  round (s * 100)%float = Some s' ->
  round (l * 100)%float = Some l' ->
  (do h360 <- mod_ h f360;
   do h1 <- round h360;
   do s1 <- round (s * 100)%float;
   do l1 <- round (l * 100)%float;
   Some (h1, s1, l1)) = Some (h', s', l').
Proof.
  intros Hh Hs Hl. destruct (mod_ h f360) as [h360|]; [|discriminate].
  cbn [bind] in *. rewrite Hh, Hs, Hl. reflexivity.
Qed.

(** ** The HLS round trip of the grays *)



(** Away from the grays the round trip through HLS does not stay within
    one unit, and not within a few units either. *)
Lemma hls_round_trip_chromatic :
  hls_round_trip 2 0 0 = Some (0, 0, 0) /\
  hls_round_trip 127 127 128 = Some (0, 0, 255).
Proof. split; vm_compute; reflexivity. Qed.

(** ** An RGB triple *)

Section Triple.

Variables r g b : Z.
Hypothesis Hr : channel r.
Hypothesis Hg : channel g.
Hypothesis Hb : channel b.

Local Abbreviation M := (Z.max (Z.max r g) b).
Local Abbreviation m := (Z.min (Z.min r g) b).

Lemma max3_norm :
  max3 (of_int r / f255) (of_int g / f255) (of_int b / f255)
  = (of_int M / f255)%float.
Proof.
  unfold max3. rewrite max2_norm by assumption.
  apply max2_norm; auto with channel_db.
Qed.

Lemma min3_norm :
  min3 (of_int r / f255) (of_int g / f255) (of_int b / f255)
  = (of_int m / f255)%float.
Proof.
  unfold min3. rewrite min2_norm by assumption.
  apply min2_norm; auto with channel_db.
Qed.

Lemma not_black_max :
  (r =? 0) && (g =? 0) && (b =? 0) = false -> 1 <= M <= 255.
Proof.
  intros H. unfold channel in *. split; [|lia].
  destruct (Z.eqb_spec r 0); [|lia].
  destruct (Z.eqb_spec g 0); [|lia].
  destruct (Z.eqb_spec b 0); [|lia]. discriminate.
Qed.

(** *** RGB to CMYK *)


Lemma rgb_to_cmyk_chan (c m' y k : Z)
  (Hne : (r =? 0) && (g =? 0) && (b =? 0) = false) :
  cmyk_chan r M = Some c -> cmyk_chan g M = Some m' -> cmyk_chan b M = Some y ->
  cmyk_key M = Some k ->
  rgb_to_cmyk r g b = Some (c, m', y, k).
Proof.
  intros Hc Hm Hy Hk. unfold rgb_to_cmyk. rewrite Hne. cbv zeta.
  rewrite max3_norm.
  unfold cmyk_chan in Hc, Hm, Hy. cbv zeta in Hc, Hm, Hy. unfold cmyk_key in Hk.
  destruct (if negb (1 - (1 - of_int M / f255) =? 0)%float
            then truediv (1 - of_int r / f255 - (1 - of_int M / f255))%float
                         (1 - (1 - of_int M / f255))%float
            else Some 0%float) as [cv|]; [|discriminate].
  destruct (if negb (1 - (1 - of_int M / f255) =? 0)%float
            then truediv (1 - of_int g / f255 - (1 - of_int M / f255))%float
                         (1 - (1 - of_int M / f255))%float
            else Some 0%float) as [mv|]; [|discriminate].
  destruct (if negb (1 - (1 - of_int M / f255) =? 0)%float
            then truediv (1 - of_int b / f255 - (1 - of_int M / f255))%float
                         (1 - (1 - of_int M / f255))%float
            else Some 0%float) as [yv|]; [|discriminate].
  simpl bind in *. rewrite Hc, Hm, Hy, Hk. reflexivity.
Qed.

(** The round trip through CMYK returns a triple, and every channel of it
    is at most 2 away from the channel it came from. *)
Lemma cmyk_round_trip_bound :
  exists t, cmyk_round_trip r g b = Some t /\ within 2 (r, g, b) t.
Proof.
  destruct ((r =? 0) && (g =? 0) && (b =? 0)) eqn:Hz.
  - exists (0, 0, 0).
    apply andb_true_iff in Hz. destruct Hz as [Hz Hb0].
    apply andb_true_iff in Hz. destruct Hz as [Hr0 Hg0].
    apply Z.eqb_eq in Hr0, Hg0, Hb0. rewrite Hr0, Hg0, Hb0.
    split; [vm_compute; reflexivity|]. unfold within. simpl. lia.
  - pose proof (not_black_max Hz) as HM.
    destruct (cmyk_pair M r HM ltac:(channels))
      as (c & k & r' & Ec & Ek & Er & Dr).
    destruct (cmyk_pair M g HM ltac:(channels))
      as (m' & k1 & g' & Em & Ek1 & Eg & Dg).
    destruct (cmyk_pair M b HM ltac:(channels))
      as (y & k2 & b' & Ey & Ek2 & Eb & Db).
    assert (k1 = k) by congruence. assert (k2 = k) by congruence. subst k1 k2.
    exists (r', g', b'). split.
    + unfold cmyk_round_trip.
      rewrite (rgb_to_cmyk_chan c m' y k Hz Ec Em Ey Ek).
      simpl bind. apply cmyk_to_rgb_chan; assumption.
    + unfold within. split; [exact Dr|]. split; [exact Dg|exact Db].
Qed.

(** C4, amended: the round trip through CMYK is within 2 per channel. *)
Theorem cmyk_round_trip_within_2 :
  exists t, cmyk_round_trip r g b = Some t /\ within 2 (r, g, b) t.
Proof. exact cmyk_round_trip_bound. Qed.

(** *** RGB to HLS *)

(** [rgb_to_hls] returns a tuple on every RGB triple: a hue in
    [[0, 360]], then the saturation and the lightness, in [[0, 100]]. *)
Lemma rgb_to_hls_ranges :
  exists h s l, rgb_to_hls r g b = Some (h, s, l) /\
                0 <= h <= 360 /\ 0 <= s <= 100 /\ 0 <= l <= 100.
Proof.
  assert (HM : channel M) by auto with channel_db.
  assert (Hm : 0 <= m <= M) by channels.
  destruct (sl_facts M m HM Hm) as [(l' & El & Rl) Hsat].
  unfold lightness in El.
  unfold rgb_to_hls. cbv zeta. rewrite max3_norm, min3_norm.
  destruct (of_int M / f255 - of_int m / f255 =? 0)%float eqn:Hd.
  - destruct hue_zero as (h0 & Eh & Rh).
    exists h0, 0, l'. split; [|repeat split; lia].
    cbn [bind]. apply hls_finish; [exact Eh|reflexivity|exact El].
  - destruct (Hsat eq_refl) as (sv & s' & Es & Ers & Rs).
    unfold saturation, lightness in Es. cbv zeta in Es. rewrite Es.
    cbn [bind]. rewrite !norm_eqb by assumption.
    unfold truediv at 1 2 3. rewrite Hd. cbn [bind].
    destruct (Z.eqb_spec M r) as [HMr|HMr].
    + (* red is the largest channel *)
      assert (Hmin : Z.min g b = m) by channels.
      destruct (hue_facts M g b HM) as ((h' & Eh & Rh) & _); try channels.
      { rewrite Hmin. exact Hd. }
      rewrite Hmin in Eh. unfold hue_r in Eh.
      destruct (mod_ ((of_int g / f255 - of_int b / f255)
                      / (of_int M / f255 - of_int m / f255))%float 6)
        as [x6|]; [|discriminate].
      cbn [bind] in *.
      exists h', s', l'. split; [|repeat split; lia].
      apply hls_finish; assumption.
    + destruct (Z.eqb_spec M g) as [HMg|HMg].
      * (* green is, and red is not *)
        assert (Hmin : Z.min b r = m) by channels.
        destruct (hue_facts M b r HM) as (_ & (h' & Eh & Rh) & _); try channels.
        { rewrite Hmin. exact Hd. }
        rewrite Hmin in Eh. unfold hue_g in Eh. cbn [bind].
        exists h', s', l'. split; [|repeat split; lia].
        apply hls_finish; assumption.
      * (* blue alone is *)
        assert (Hmin : Z.min r g = m) by channels.
        destruct (hue_facts M r g HM) as (_ & _ & (h' & Eh & Rh)); try channels.
        { rewrite Hmin. exact Hd. }
        rewrite Hmin in Eh. unfold hue_b in Eh. cbn [bind].
        exists h', s', l'. split; [|repeat split; lia].
        apply hls_finish; assumption.
Qed.


(** *** Both round trips *)


End Triple.


(** ** The theorems at one input *)


Lemma cmyk_round_trip_within_2_witness :
  channel 239 /\ channel 251 /\ channel 251 /\
  exists t, cmyk_round_trip 239 251 251 = Some t /\ within 2 (239, 251, 251) t.
Proof.
  assert (H239 : channel 239) by channels.
  assert (H251 : channel 251) by channels.
  repeat (split; [assumption|]).
  exact (cmyk_round_trip_within_2 239 251 251 H239 H251 H251).
Defined.




(** ** Where the round trips fail *)




(** C4, as stated, is false: [(239, 251, 251)] comes back as
    [(237, 250, 250)]. *)
Lemma cmyk_round_trip_off_by_two :
  ~ (forall r g b, channel r -> channel g -> channel b ->
       exists t, cmyk_round_trip r g b = Some t /\ within 1 (r, g, b) t).
Proof.
  intros H. destruct (H 239 251 251) as (t & E & Hw); try (unfold channel; lia).
  vm_compute in E. injection E as <-. unfold within in Hw. lia.
Qed.

(** * Further properties of the conversions *)

Lemma is_value_spec (o : option Z) (v : Z) : is_value o v = true -> o = Some v.
Proof.
  destruct o as [x|]; [|discriminate]. simpl. intros H.
  apply Z.eqb_eq in H. subst. reflexivity.
Qed.

Lemma eq_rgb_spec (p q : option (Z * Z * Z)) :
  eq_rgb p q = true -> exists t, p = Some t /\ q = Some t.
Proof.
  destruct p as [[[r g] b]|]; [|discriminate].
  destruct q as [[[r' g'] b']|]; [|discriminate]. simpl.
  rewrite !andb_true_iff, !Z.eqb_eq. intros [[-> ->] ->].
  exists (r', g', b'). split; reflexivity.
Qed.

(** ** [rgb_to_cmyk]: the percentages *)

Lemma cmyk_range_all :
  all_from 255 1 (fun M => all_from 256 0 (cmyk_range_check M)) = true.
Proof. vm_compute. reflexivity. Qed.

Lemma cmyk_brightest_all : all_from 255 1 cmyk_brightest_check = true.
Proof. vm_compute. reflexivity. Qed.

Lemma cmyk_chan_range (M x : Z) (HM : 1 <= M <= 255) (Hx : 0 <= x <= M) :
  (exists c, cmyk_chan x M = Some c /\ percentage c) /\
  (exists k, cmyk_key M = Some k /\ percentage k).
Proof.
  enum cmyk_range_all M as H. enum H x as H'.
  unfold cmyk_range_check in H'. destruct (Z.leb_spec x M); [|lia].
  apply andb_true_iff in H'. destruct H' as [Hc Hk].
  unfold percentage. split; apply percent_spec; assumption.
Qed.

Lemma cmyk_chan_brightest (M : Z) (HM : 1 <= M <= 255) : cmyk_chan M M = Some 0.
Proof.
  enum cmyk_brightest_all M as H. unfold cmyk_brightest_check in H.
  destruct (cmyk_chan M M) as [[| |]|]; try discriminate. reflexivity.
Qed.

(** The result of [rgb_to_cmyk] away from black, channel by channel. *)
Lemma rgb_to_cmyk_parts (r g b : Z)
  (Hr : channel r) (Hg : channel g) (Hb : channel b)
  (Hne : (r =? 0) && (g =? 0) && (b =? 0) = false) :
  exists c m y k,
    rgb_to_cmyk r g b = Some (c, m, y, k) /\
    cmyk_chan r (Z.max (Z.max r g) b) = Some c /\
    cmyk_chan g (Z.max (Z.max r g) b) = Some m /\
    cmyk_chan b (Z.max (Z.max r g) b) = Some y /\
    cmyk_key (Z.max (Z.max r g) b) = Some k /\
    percentage c /\ percentage m /\ percentage y /\ percentage k.
Proof.
  pose proof (not_black_max r g b Hr Hg Hb Hne) as HM.
  destruct (cmyk_chan_range _ r HM ltac:(channels)) as [(c & Ec & Rc) (k & Ek & Rk)].
  destruct (cmyk_chan_range _ g HM ltac:(channels)) as [(m & Em & Rm) _].
  destruct (cmyk_chan_range _ b HM ltac:(channels)) as [(y & Ey & Ry) _].
  exists c, m, y, k.
  split; [exact (rgb_to_cmyk_chan r g b Hr Hg Hb c m y k Hne Ec Em Ey Ek)|].
  repeat (split; [assumption|]). assumption.
Qed.

Lemma rgb_to_cmyk_range (r g b : Z)
  (Hr : channel r) (Hg : channel g) (Hb : channel b) :
  exists c m y k, rgb_to_cmyk r g b = Some (c, m, y, k) /\
    percentage c /\ percentage m /\ percentage y /\ percentage k.
Proof.
  destruct ((r =? 0) && (g =? 0) && (b =? 0)) eqn:Hz.
  - exists 0, 0, 0, 100. unfold rgb_to_cmyk. rewrite Hz.
    unfold percentage. repeat split; lia.
  - destruct (rgb_to_cmyk_parts r g b Hr Hg Hb Hz)
      as (c & m & y & k & E & _ & _ & _ & _ & R).
    exists c, m, y, k. split; assumption.
Qed.

(** X1: on every RGB triple [rgb_to_cmyk] returns four percentages: each
    of C, M, Y and K is an integer in [[0, 100]], so the CMYK sliders
    never have to bound what they are given. *)
Theorem rgb_to_cmyk_percentages (r g b : Z)
  (Hr : channel r) (Hg : channel g) (Hb : channel b) :
  exists c m y k, rgb_to_cmyk r g b = Some (c, m, y, k) /\
    percentage c /\ percentage m /\ percentage y /\ percentage k.
Proof. exact (rgb_to_cmyk_range r g b Hr Hg Hb). Qed.

(** X2: the largest channel gets no ink: in the result of [rgb_to_cmyk]
    the percentage of a channel that no other channel exceeds is 0, so
    one of C, M and Y is always 0. *)
Theorem rgb_to_cmyk_brightest (r g b : Z)
  (Hr : channel r) (Hg : channel g) (Hb : channel b) :
  exists c m y k, rgb_to_cmyk r g b = Some (c, m, y, k) /\
    (g <= r -> b <= r -> c = 0) /\
    (r <= g -> b <= g -> m = 0) /\
    (r <= b -> g <= b -> y = 0).
Proof.
  destruct ((r =? 0) && (g =? 0) && (b =? 0)) eqn:Hz.
  - exists 0, 0, 0, 100. unfold rgb_to_cmyk. rewrite Hz.
    repeat split; reflexivity.
  - pose proof (not_black_max r g b Hr Hg Hb Hz) as HM.
    destruct (rgb_to_cmyk_parts r g b Hr Hg Hb Hz)
      as (c & m & y & k & E & Ec & Em & Ey & _).
    pose proof (cmyk_chan_brightest _ HM) as H0.
    exists c, m, y, k. split; [exact E|].
    split; [|split]; intros H1 H2.
    + replace (Z.max (Z.max r g) b) with r in * by lia. congruence.
    + replace (Z.max (Z.max r g) b) with g in * by lia. congruence.
    + replace (Z.max (Z.max r g) b) with b in * by lia. congruence.
Qed.

(** ** [cmyk_to_rgb]: the channels *)

Lemma rgb_raw_all :
  all_from 101 0 (fun c => all_from 101 0 (rgb_raw_check c)) = true.
Proof. vm_compute. reflexivity. Qed.

Lemma rgb_raw_step_all :
  all_from 101 0 (fun c => all_from 101 0 (rgb_raw_step_check c)) = true.
Proof. vm_compute. reflexivity. Qed.


Lemma key_round_trip_all : all_from 101 0 key_round_trip_check = true.
Proof. vm_compute. reflexivity. Qed.

Ltac percentages := unfold percentage, channel in *; lia.

Lemma rgb_raw_range (c k : Z) (Hc : percentage c) (Hk : percentage k) :
  exists v, rgb_raw c k = Some v /\ channel v.
Proof.
  unfold percentage in *.
  enum rgb_raw_all c as H. enum H k as H'. unfold rgb_raw_check in H'.
  destruct (rgb_raw c k) as [v|]; [|discriminate].
  apply andb_true_iff in H'. destruct H' as [H0 H255].
  apply Z.leb_le in H0, H255. exists v. split; [reflexivity|channels].
Qed.

Lemma rgb_chan_raw (c k v : Z) :
  rgb_raw c k = Some v -> channel v -> rgb_chan c k = Some v.
Proof.
  unfold rgb_chan, rgb_raw. intros -> Hv. cbn [bind]. f_equal. channels.
Qed.

Lemma rgb_raw_step (c k : Z) (Hc : percentage c) (Hk : percentage k) :
  exists v vc vk, rgb_raw c k = Some v /\ rgb_raw (c + 1) k = Some vc /\
                  rgb_raw c (k + 1) = Some vk /\ vc <= v /\ vk <= v.
Proof.
  unfold percentage in *.
  enum rgb_raw_step_all c as H. enum H k as H'. unfold rgb_raw_step_check in H'.
  destruct (rgb_raw c k) as [v|]; [|discriminate].
  destruct (rgb_raw (c + 1) k) as [vc|]; [|discriminate].
  destruct (rgb_raw c (k + 1)) as [vk|]; [|discriminate].
  apply andb_true_iff in H'. destruct H' as [H1 H2].
  apply Z.leb_le in H1, H2. exists v, vc, vk. repeat split; assumption.
Qed.

Lemma rgb_raw_ink (k : Z) (Hk : percentage k) :
  forall (n : nat) (c : Z), 0 <= c -> c + Z.of_nat n <= 100 ->
  forall v v', rgb_raw c k = Some v -> rgb_raw (c + Z.of_nat n) k = Some v' ->
  v' <= v.
Proof.
  induction n as [|n IH]; intros c Hc Hn v v' Ev Ev'.
  - replace (c + Z.of_nat 0) with c in Ev' by lia.
    assert (v' = v) by congruence. lia.
  - destruct (rgb_raw_step c k ltac:(percentages) Hk)
      as (w & wc & _ & Ew & Ewc & _ & Hle & _).
    assert (w = v) by congruence. subst w.
    replace (c + Z.of_nat (S n)) with (c + 1 + Z.of_nat n) in Ev' by lia.
    pose proof (IH (c + 1) ltac:(lia) ltac:(lia) wc v' Ewc Ev'). lia.
Qed.

Lemma rgb_raw_key (c : Z) (Hc : percentage c) :
  forall (n : nat) (k : Z), 0 <= k -> k + Z.of_nat n <= 100 ->
  forall v v', rgb_raw c k = Some v -> rgb_raw c (k + Z.of_nat n) = Some v' ->
  v' <= v.
Proof.
  induction n as [|n IH]; intros k Hk Hn v v' Ev Ev'.
  - replace (k + Z.of_nat 0) with k in Ev' by lia.
    assert (v' = v) by congruence. lia.
  - destruct (rgb_raw_step c k Hc ltac:(percentages))
      as (w & _ & wk & Ew & _ & Ewk & _ & Hle).
    assert (w = v) by congruence. subst w.
    replace (k + Z.of_nat (S n)) with (k + 1 + Z.of_nat n) in Ev' by lia.
    pose proof (IH (k + 1) ltac:(lia) ltac:(lia) wk v' Ewk Ev'). lia.
Qed.

(** More ink and more key never give a larger channel. *)
Lemma rgb_raw_antitone (c k c' k' v v' : Z)
  (Hc : percentage c) (Hk : percentage k)
  (Hc' : percentage c') (Hk' : percentage k') :
  c <= c' -> k <= k' ->
  rgb_raw c k = Some v -> rgb_raw c' k' = Some v' -> v' <= v.
Proof.
  intros Hcc Hkk Ev Ev'.
  destruct (rgb_raw_range c' k Hc' Hk) as (w & Ew & _).
  assert (H1 : w <= v).
  { apply (rgb_raw_ink k Hk (Z.to_nat (c' - c)) c); try percentages; try assumption.
    replace (c + Z.of_nat (Z.to_nat (c' - c))) with c' by lia. exact Ew. }
  assert (H2 : v' <= w).
  { apply (rgb_raw_key c' Hc' (Z.to_nat (k' - k)) k); try percentages; try assumption.
    replace (k + Z.of_nat (Z.to_nat (k' - k))) with k' by lia. exact Ev'. }
  lia.
Qed.

(** The result of [cmyk_to_rgb] on percentages, channel by channel. *)
Lemma cmyk_to_rgb_parts (c m y k : Z)
  (Hc : percentage c) (Hm : percentage m) (Hy : percentage y) (Hk : percentage k) :
  exists r g b, cmyk_to_rgb c m y k = Some (r, g, b) /\
    rgb_raw c k = Some r /\ rgb_raw m k = Some g /\ rgb_raw y k = Some b /\
    channel r /\ channel g /\ channel b.
Proof.
  destruct (rgb_raw_range c k Hc Hk) as (r & Er & Rr).
  destruct (rgb_raw_range m k Hm Hk) as (g & Eg & Rg).
  destruct (rgb_raw_range y k Hy Hk) as (b & Eb & Rb).
  exists r, g, b. split.
  - apply cmyk_to_rgb_chan; apply rgb_chan_raw; assumption.
  - repeat (split; [assumption|]). assumption.
Qed.

(** X3: on four percentages [cmyk_to_rgb] returns an RGB triple, and
    [max(0, min(255, ...))] changes nothing: every channel is the rounded
    product [round(255 * (1 - x / 100) * (1 - k / 100))] itself. *)
Theorem cmyk_to_rgb_channels (c m y k : Z)
  (Hc : percentage c) (Hm : percentage m) (Hy : percentage y) (Hk : percentage k) :
  exists r g b, cmyk_to_rgb c m y k = Some (r, g, b) /\
    channel r /\ channel g /\ channel b /\
    round (255 * (1 - of_int c / f100) * (1 - of_int k / f100))%float = Some r /\
    round (255 * (1 - of_int m / f100) * (1 - of_int k / f100))%float = Some g /\
    round (255 * (1 - of_int y / f100) * (1 - of_int k / f100))%float = Some b.
Proof.
  destruct (cmyk_to_rgb_parts c m y k Hc Hm Hy Hk)
    as (r & g & b & E & Er & Eg & Eb & Rr & Rg & Rb).
  exists r, g, b. repeat (split; [assumption|]). exact Eb.
Qed.

(** X4: [cmyk_to_rgb] is antitone: when no percentage decreases, no
    channel of the result increases. *)
Theorem cmyk_to_rgb_antitone (c m y k c' m' y' k' : Z)
  (Hc : percentage c) (Hm : percentage m) (Hy : percentage y) (Hk : percentage k)
  (Hc' : percentage c') (Hm' : percentage m') (Hy' : percentage y')
  (Hk' : percentage k')
  (Lc : c <= c') (Lm : m <= m') (Ly : y <= y') (Lk : k <= k') :
  exists r g b r' g' b',
    cmyk_to_rgb c m y k = Some (r, g, b) /\
    cmyk_to_rgb c' m' y' k' = Some (r', g', b') /\
    r' <= r /\ g' <= g /\ b' <= b.
Proof.
  destruct (cmyk_to_rgb_parts c m y k Hc Hm Hy Hk)
    as (r & g & b & E & Er & Eg & Eb & _).
  destruct (cmyk_to_rgb_parts c' m' y' k' Hc' Hm' Hy' Hk')
    as (r' & g' & b' & E' & Er' & Eg' & Eb' & _).
  exists r, g, b, r', g', b'. split; [exact E|]. split; [exact E'|].
  split; [|split].
  - exact (rgb_raw_antitone c k c' k' r r' Hc Hk Hc' Hk' Lc Lk Er Er').
  - exact (rgb_raw_antitone m k m' k' g g' Hm Hk Hm' Hk' Lm Lk Eg Eg').
  - exact (rgb_raw_antitone y k y' k' b b' Hy Hk Hy' Hk' Ly Lk Eb Eb').
Qed.



(** X6: the key survives the way through RGB: when one of C, M and Y is
    0, [rgb_to_cmyk] of the result of [cmyk_to_rgb] has the key that was
    given. *)
Theorem key_round_trip (c m y k : Z)
  (Hc : percentage c) (Hm : percentage m) (Hy : percentage y) (Hk : percentage k)
  (H0 : Z.min (Z.min c m) y = 0) :
  exists r g b c' m' y',
    cmyk_to_rgb c m y k = Some (r, g, b) /\
    rgb_to_cmyk r g b = Some (c', m', y', k).
Proof.
  destruct (cmyk_to_rgb_parts c m y k Hc Hm Hy Hk)
    as (r & g & b & E & Er & Eg & Eb & Rr & Rg & Rb).
  assert (P0 : percentage 0) by percentages.
  destruct (rgb_raw_range 0 k P0 Hk) as (v & Ev & Rv).
  assert (Lr : r <= v).
  { apply (rgb_raw_antitone 0 k c k v r); try assumption; percentages. }
  assert (Lg : g <= v).
  { apply (rgb_raw_antitone 0 k m k v g); try assumption; percentages. }
  assert (Lb : b <= v).
  { apply (rgb_raw_antitone 0 k y k v b); try assumption; percentages. }
  assert (HM : Z.max (Z.max r g) b = v).
  { assert (Hz : c = 0 \/ m = 0 \/ y = 0) by percentages.
    destruct Hz as [->|[->| ->]].
    - assert (r = v) by congruence. lia.
    - assert (g = v) by congruence. lia.
    - assert (b = v) by congruence. lia. }
  unfold percentage in Hk.
  enum key_round_trip_all k as Hchk. unfold key_round_trip_check in Hchk.
  rewrite Ev in Hchk.
  exists r, g, b.
  destruct (Z.eqb_spec v 0) as [Hv|Hv].
  - apply Z.eqb_eq in Hchk. subst k.
    assert (r = 0) by channels. assert (g = 0) by channels.
    assert (b = 0) by channels. subst r g b.
    exists 0, 0, 0. split; [exact E|reflexivity].
  - destruct (cmyk_key v) as [k'|] eqn:Ek; [|discriminate].
    apply Z.eqb_eq in Hchk. subst k'.
    assert (Hne : (r =? 0) && (g =? 0) && (b =? 0) = false).
    { destruct (Z.eqb_spec r 0); [|reflexivity].
      destruct (Z.eqb_spec g 0); [|reflexivity].
      destruct (Z.eqb_spec b 0); [|reflexivity]. lia. }
    destruct (rgb_to_cmyk_parts r g b Rr Rg Rb Hne)
      as (c' & m' & y' & k' & E' & _ & _ & _ & Ek' & _).
    rewrite HM in Ek'. assert (k' = k) by congruence. subst k'.
    exists c', m', y'. split; assumption.
Qed.

(** ** [rgb_to_hls]: saturation, lightness and the hue of pure colours *)

Lemma delta_all :
  all_from 256 0 (fun i => all_from 256 0 (delta_check i)) = true.
Proof. vm_compute. reflexivity. Qed.

Lemma half_lightness_all : all_from 128 128 half_lightness_check = true.
Proof. vm_compute. reflexivity. Qed.

Lemma pure_hue_all :
  all_from 256 0 (fun M => all_from 256 0 (pure_hue_check M)) = true.
Proof. vm_compute. reflexivity. Qed.

Lemma delta_eqb (i j : Z) (Hi : channel i) (Hj : channel j) :
  (of_int i / f255 - of_int j / f255 =? 0)%float = (i =? j).
Proof.
  unfold channel in *.
  enum delta_all i as H. enum H j as H'.
  unfold delta_check in H'. apply eqb_prop in H'. exact H'.
Qed.

(** [rgb_to_hls] computes what [hls_by_extremes] does. *)
Lemma rgb_to_hls_by_extremes (r g b : Z)
  (Hr : channel r) (Hg : channel g) (Hb : channel b) :
  rgb_to_hls r g b = hls_by_extremes r g b.
Proof.
  unfold rgb_to_hls, hls_by_extremes, hue_of. cbv zeta.
  rewrite (max3_norm r g b Hr Hg Hb), (min3_norm r g b Hr Hg Hb).
  destruct (of_int (Z.max (Z.max r g) b) / f255
            - of_int (Z.min (Z.min r g) b) / f255 =? 0)%float eqn:Hd.
  - cbn [bind]. reflexivity.
  - unfold saturation, lightness. cbv zeta.
    match goal with
    | |- context [bind ?s _] =>
        match s with
        | (if negb _ then _ else _) => destruct s as [sv|]; [|reflexivity]
        end
    end.
    cbn [bind]. rewrite !norm_eqb by channels.
    unfold truediv. rewrite Hd. cbn [bind].
    destruct (Z.max (Z.max r g) b =? r).
    + unfold hue_r.
      match goal with
      | |- context [mod_ ?x 6%float] => destruct (mod_ x 6%float) as [x6|]
      end; [|reflexivity].
      cbn [bind].
      match goal with
      | |- context [mod_ ?x f360] => destruct (mod_ x f360) as [h360|]
      end; [|reflexivity].
      cbn [bind]. destruct (round h360); reflexivity.
    + destruct (Z.max (Z.max r g) b =? g).
      * unfold hue_g. cbn [bind].
        match goal with
        | |- context [mod_ ?x f360] => destruct (mod_ x f360) as [h360|]
        end; [|reflexivity].
        cbn [bind]. destruct (round h360); reflexivity.
      * unfold hue_b. cbn [bind].
        match goal with
        | |- context [mod_ ?x f360] => destruct (mod_ x f360) as [h360|]
        end; [|reflexivity].
        cbn [bind]. destruct (round h360); reflexivity.
Qed.

(** What [rgb_to_hls] returns on a triple with largest channel [M] and
    smallest channel [m]. *)
Lemma rgb_to_hls_parts (r g b M m : Z)
  (Hr : channel r) (Hg : channel g) (Hb : channel b)
  (HM : Z.max (Z.max r g) b = M) (Hm : Z.min (Z.min r g) b = m) :
  exists h s l, rgb_to_hls r g b = Some (h, s, l) /\
    sl_of M m = Some (s, l) /\
    (M <> m -> hue_of r g b = Some h) /\ (M = m -> h = 0).
Proof.
  destruct (rgb_to_hls_ranges r g b Hr Hg Hb) as (h & s & l & E & _).
  exists h, s, l. split; [exact E|].
  rewrite rgb_to_hls_by_extremes in E by assumption.
  unfold hls_by_extremes in E. cbv zeta in E. rewrite HM, Hm in E.
  unfold sl_of.
  rewrite delta_eqb in * by (subst M m; channels).
  destruct (Z.eqb_spec M m) as [Heq|Hne].
  - destruct (round (lightness M m * 100)%float) as [l'|]; [|discriminate].
    cbn [bind] in *. injection E as <- <- <-.
    split; [reflexivity|]. split; [contradiction|reflexivity].
  - destruct (saturation M m) as [sv|]; [|discriminate]. cbn [bind] in *.
    destruct (hue_of r g b) as [h'|]; [|discriminate]. cbn [bind] in *.
    destruct (round (sv * 100)%float) as [s'|]; [|discriminate]. cbn [bind] in *.
    destruct (round (lightness M m * 100)%float) as [l'|]; [|discriminate].
    cbn [bind] in *. injection E as <- <- <-.
    split; [reflexivity|]. split; [reflexivity|contradiction].
Qed.

(** X7: [rgb_to_hls] returns a saturation and a lightness that are
    percentages, on every RGB triple. *)
Theorem rgb_to_hls_percentages (r g b : Z)
  (Hr : channel r) (Hg : channel g) (Hb : channel b) :
  exists h s l, rgb_to_hls r g b = Some (h, s, l) /\
                percentage s /\ percentage l.
Proof.
  destruct (rgb_to_hls_ranges r g b Hr Hg Hb) as (h & s & l & E & _ & Rs & Rl).
  exists h, s, l. split; [exact E|]. split; assumption.
Qed.

(** X8: saturation and lightness depend on the largest and the smallest
    channel only: two triples with the same extremes, in particular two
    orders of the same channels, get the same saturation and the same
    lightness. *)
Theorem rgb_to_hls_extremes (r g b r' g' b' : Z)
  (Hr : channel r) (Hg : channel g) (Hb : channel b)
  (Hr' : channel r') (Hg' : channel g') (Hb' : channel b')
  (Hmax : Z.max (Z.max r g) b = Z.max (Z.max r' g') b')
  (Hmin : Z.min (Z.min r g) b = Z.min (Z.min r' g') b') :
  exists h h' s l, rgb_to_hls r g b = Some (h, s, l) /\
                   rgb_to_hls r' g' b' = Some (h', s, l).
Proof.
  destruct (rgb_to_hls_parts r g b _ _ Hr Hg Hb eq_refl eq_refl)
    as (h & s & l & E & Esl & _).
  destruct (rgb_to_hls_parts r' g' b' _ _ Hr' Hg' Hb' eq_refl eq_refl)
    as (h' & s' & l' & E' & Esl' & _).
  rewrite Hmax, Hmin in Esl.
  assert (Heq : (s, l) = (s', l')) by congruence.
  injection Heq as -> ->. exists h, h', s', l'. split; assumption.
Qed.

Lemma sl_of_half (M : Z) (HM : 128 <= M <= 255) :
  sl_of M (255 - M) = Some (100, 50).
Proof.
  enum half_lightness_all M as H. unfold half_lightness_check in H.
  apply andb_true_iff in H. destruct H as [Hl H50]. apply is_value_spec in H50.
  unfold sl_of. rewrite delta_eqb by channels.
  destruct (Z.eqb_spec M (255 - M)); [lia|].
  unfold saturation. cbv zeta. rewrite Hl. cbn [negb bind].
  change (round (1 * 100)%float) with (Some 100). cbn [bind].
  rewrite H50. reflexivity.
Qed.

(** X9: when the largest and the smallest channel add up to 255 the
    lightness is the float 0.5, the branch [else 1] of the saturation is
    taken, and [rgb_to_hls] returns the saturation 100 and the lightness
    50, however close to gray the triple is. *)
Theorem rgb_to_hls_half_lightness (r g b : Z)
  (Hr : channel r) (Hg : channel g) (Hb : channel b)
  (H255 : Z.max (Z.max r g) b + Z.min (Z.min r g) b = 255) :
  exists h, rgb_to_hls r g b = Some (h, 100, 50).
Proof.
  destruct (rgb_to_hls_parts r g b _ _ Hr Hg Hb eq_refl eq_refl)
    as (h & s & l & E & Esl & _).
  replace (Z.min (Z.min r g) b) with (255 - Z.max (Z.max r g) b) in Esl by lia.
  rewrite sl_of_half in Esl by channels.
  injection Esl as <- <-. exists h. exact E.
Qed.

Lemma pure_hue (M m : Z) (HM : channel M) (Hm : 0 <= m < M) :
  hue_of M m m = Some 0 /\ hue_of M M m = Some 60 /\
  hue_of m M m = Some 120 /\ hue_of m M M = Some 180 /\
  hue_of m m M = Some 240 /\ hue_of M m M = Some 300.
Proof.
  unfold channel in HM.
  enum pure_hue_all M as H. enum H m as H'. unfold pure_hue_check in H'.
  destruct (Z.ltb_spec m M) as [_|Hge]; [|lia].
  rewrite !andb_true_iff in H'.
  destruct H' as [[[[[H0 H60] H120] H180] H240] H300].
  repeat split; apply is_value_spec; assumption.
Qed.

(** X10: a triple with two equal channels has a multiple of 60 for hue:
    with [m < M], [rgb_to_hls] returns the hue 0 on [(M, m, m)], 60 on
    [(M, M, m)], 120 on [(m, M, m)], 180 on [(m, M, M)], 240 on
    [(m, m, M)] and 300 on [(M, m, M)], with one saturation and one
    lightness for the six. *)
Theorem rgb_to_hls_pure_hues (M m : Z) (HM : channel M) (Hm : 0 <= m < M) :
  exists s l,
    rgb_to_hls M m m = Some (0, s, l) /\ rgb_to_hls M M m = Some (60, s, l) /\
    rgb_to_hls m M m = Some (120, s, l) /\ rgb_to_hls m M M = Some (180, s, l) /\
    rgb_to_hls m m M = Some (240, s, l) /\ rgb_to_hls M m M = Some (300, s, l).
Proof.
  assert (Hc : channel m) by channels.
  destruct (pure_hue M m HM Hm) as (H0 & H60 & H120 & H180 & H240 & H300).
  assert (Hne : M <> m) by lia.
  destruct (rgb_to_hls_parts M m m M m HM Hc Hc ltac:(lia) ltac:(lia))
    as (h & s & l & E & Esl & Eh & _).
  specialize (Eh Hne). assert (h = 0) by congruence. subst h.
  exists s, l. split; [exact E|].
  assert (Hall : forall r g b h0, channel r -> channel g -> channel b ->
            Z.max (Z.max r g) b = M -> Z.min (Z.min r g) b = m ->
            hue_of r g b = Some h0 -> rgb_to_hls r g b = Some (h0, s, l)).
  { intros r g b h0 Hr Hg Hb Emax Emin Ehue.
    destruct (rgb_to_hls_parts r g b M m Hr Hg Hb Emax Emin)
      as (h1 & s1 & l1 & E1 & Esl1 & Eh1 & _).
    specialize (Eh1 Hne).
    assert (h1 = h0) by congruence.
    assert (Heq : (s1, l1) = (s, l)) by congruence.
    injection Heq as -> ->. subst h1. exact E1. }
  repeat split; apply Hall; try assumption; lia.
Qed.

(** ** [hls_to_rgb]: the ends of the hue and of the lightness *)

Lemma hue_wrap_all :
  all_from 101 0 (fun l => all_from 101 0 (hue_wrap_check l)) = true.
Proof. vm_compute. reflexivity. Qed.

Lemma extreme_lightness_all :
  all_from 361 0 (fun h => all_from 101 0 (extreme_lightness_check h)) = true.
Proof. vm_compute. reflexivity. Qed.

(** X11: the hue 360, which [rgb_to_hls] can return and the hue slider
    can take, is the hue 0: [hls_to_rgb] returns the same triple for
    both, at every lightness and saturation. *)
Theorem hls_to_rgb_hue_wraps (l s : Z) (Hl : percentage l) (Hs : percentage s) :
  exists t, hls_to_rgb 360 l s = Some t /\ hls_to_rgb 0 l s = Some t.
Proof.
  unfold percentage in *.
  enum hue_wrap_all l as H. enum H s as H'.
  apply eq_rgb_spec. exact H'.
Qed.

Lemma extreme_lightness (h s : Z) (Hh : 0 <= h <= 360) (Hs : percentage s) :
  hls_to_rgb h 0 s = Some (0, 0, 0) /\
  hls_to_rgb h 100 s = Some (255, 255, 255).
Proof.
  unfold percentage in *.
  enum extreme_lightness_all h as H. enum H s as H'.
  unfold extreme_lightness_check in H'.
  apply andb_true_iff in H'. destruct H' as [H0 H100].
  apply eq_rgb_spec in H0, H100.
  destruct H0 as (t0 & E0 & Et0). destruct H100 as (t1 & E1 & Et1).
  split; congruence.
Qed.

(** X12: the lightness 0 gives black and the lightness 100 gives white,
    at every hue and every saturation. *)
Theorem hls_to_rgb_extreme_lightness (h s : Z)
  (Hh : 0 <= h <= 360) (Hs : percentage s) :
  hls_to_rgb h 0 s = Some (0, 0, 0) /\
  hls_to_rgb h 100 s = Some (255, 255, 255).
Proof. exact (extreme_lightness h s Hh Hs). Qed.

Lemma sweep3_spec (f : float -> float -> float -> bool) (A B C : list float) :
  sweep3 f A B C = true ->
  forall a b c, In a A -> In b B -> In c C -> f a b c = true.
Proof.
  unfold sweep3. intros H a b c Ha Hb Hc.
  rewrite forallb_forall in H. specialize (H a Ha).
  rewrite forallb_forall in H. specialize (H b Hb).
  rewrite forallb_forall in H. exact (H c Hc).
Qed.

Lemma hls_sweep_all :
  sweep3 hls_check hue_table percent_table percent_table = true.
Proof. vm_cast_no_check (eq_refl true). Qed.

Lemma hue_table_in (h : Z) : 0 <= h <= 360 -> In (of_int h / f360)%float hue_table.
Proof.
  intros Hh. unfold hue_table. apply in_map_iff. exists (Z.to_nat h). split.
  - rewrite Z2Nat.id by lia. reflexivity.
  - apply in_seq. lia.
Qed.

Lemma percent_table_in (x : Z) :
  percentage x -> In (of_int x / f100)%float percent_table.
Proof.
  intros Hx. unfold percentage in Hx. unfold percent_table.
  apply in_map_iff. exists (Z.to_nat x). split.
  - rewrite Z2Nat.id by lia. reflexivity.
  - apply in_seq. lia.
Qed.

Lemma is_number_round (x : float) :
  is_number x = true ->
  round x = Some (if (x <? 0)%float then - abs_round x else abs_round x).
Proof.
  unfold is_number. intros H. destruct (abs_ltb_finite _ _ H) as [Hn Hi].
  unfold round. rewrite Hn, Hi. reflexivity.
Qed.

Lemma hls_to_rgb_floats (h l s : Z) :
  hls_to_rgb h l s =
  let '(r, g, b) :=
    hls_floats (of_int h / f360) (of_int l / f100) (of_int s / f100) in
  do r' <- round (r * 255)%float;
  do g' <- round (g * 255)%float;
  do b' <- round (b * 255)%float;
  Some (Z.max 0 (Z.min 255 r'), Z.max 0 (Z.min 255 g'), Z.max 0 (Z.min 255 b')).
Proof. reflexivity. Qed.

(** [hls_to_rgb] returns on every setting of the three sliders. *)
Lemma hls_to_rgb_returns (h l s : Z)
  (Hh : 0 <= h <= 360) (Hl : percentage l) (Hs : percentage s) :
  exists r g b, hls_to_rgb h l s = Some (r, g, b) /\
                channel r /\ channel g /\ channel b.
Proof.
  pose proof (sweep3_spec _ _ _ _ hls_sweep_all _ _ _ (hue_table_in h Hh)
                (percent_table_in l Hl) (percent_table_in s Hs)) as H.
  unfold hls_check in H. rewrite hls_to_rgb_floats.
  destruct (hls_floats (of_int h / f360) (of_int l / f100) (of_int s / f100))
    as [[r g] b].
  rewrite !andb_true_iff in H. destruct H as [[Nr Ng] Nb].
  rewrite (is_number_round _ Nr), (is_number_round _ Ng), (is_number_round _ Nb).
  cbn [bind]. eexists _, _, _. split; [reflexivity|]. repeat split; lia.
Qed.

(** X13: [hls_to_rgb] returns an RGB triple on every setting of the HLS
    sliders: a hue in [[0, 360]] with a lightness and a saturation in
    [[0, 100]]; no rounding meets an infinity or a NaN. *)
Theorem hls_to_rgb_total (h l s : Z)
  (Hh : 0 <= h <= 360) (Hl : percentage l) (Hs : percentage s) :
  exists r g b, hls_to_rgb h l s = Some (r, g, b) /\
                channel r /\ channel g /\ channel b.
Proof. exact (hls_to_rgb_returns h l s Hh Hl Hs). Qed.

(** * The widgets and the window *)

(** ** A group of sliders *)


Lemma has_ranges_nil (g : ColorModelGroup.t) : has_ranges g [] = true -> g = [].
Proof. destruct g; [reflexivity|discriminate]. Qed.

Lemma has_ranges_cons (g : ColorModelGroup.t) (lo hi : Z) (ranges : list (Z * Z)) :
  has_ranges g ((lo, hi) :: ranges) = true ->
  exists w g', g = w :: g' /\
    ColorSliderGroup.min_val w = lo /\ ColorSliderGroup.max_val w = hi /\
    lo <= ColorSliderGroup.slider_value w <= hi /\
    has_ranges g' ranges = true.
Proof.
  destruct g as [|w g']; [discriminate|]. cbn [has_ranges]. unfold bounded.
  rewrite !andb_true_iff, !Z.eqb_eq, !Z.leb_le.
  intros [[[Hlo Hhi] [H1 H2]] Hrest]. exists w, g'.
  split; [reflexivity|]. repeat (split; [assumption || lia|]). exact Hrest.
Qed.

Lemma has_ranges_intro (w : ColorSliderGroup.t) (g : ColorModelGroup.t)
  (lo hi : Z) (ranges : list (Z * Z)) :
  ColorSliderGroup.min_val w = lo -> ColorSliderGroup.max_val w = hi ->
  lo <= ColorSliderGroup.slider_value w <= hi ->
  has_ranges g ranges = true ->
  has_ranges (w :: g) ((lo, hi) :: ranges) = true.
Proof.
  intros Hlo Hhi Hv Hg. cbn [has_ranges]. unfold bounded.
  rewrite !andb_true_iff, !Z.eqb_eq, !Z.leb_le. repeat split; assumption || lia.
Qed.

Lemma has_ranges_shown (g : ColorModelGroup.t) :
  forall ranges, has_ranges g ranges = true -> Forall2 in_range ranges (shown g).
Proof.
  induction g as [|w g IH]; intros [|[lo hi] ranges] H; try discriminate.
  - constructor.
  - destruct (has_ranges_cons _ _ _ _ H) as (w' & g' & E & _ & _ & Hv & Hrest).
    injection E as <- <-. cbn [shown map]. constructor.
    + unfold in_range. simpl. exact Hv.
    + apply IH. exact Hrest.
Qed.

(** Values inside the ranges are taken as they are. *)
Lemma set_values_in_range (g : ColorModelGroup.t) :
  forall ranges values,
    has_ranges g ranges = true -> Forall2 in_range ranges values ->
    shown (ColorModelGroup.set_values g values) = values /\
    has_ranges (ColorModelGroup.set_values g values) ranges = true.
Proof.
  induction g as [|w g IH]; intros ranges values H F.
  - destruct ranges as [|[lo hi] ranges]; [|discriminate].
    inversion F. subst. split; reflexivity.
  - destruct ranges as [|[lo hi] ranges]; [discriminate|].
    destruct (has_ranges_cons _ _ _ _ H) as (w' & g' & E & Hlo & Hhi & Hv & Hrest).
    injection E as <- <-.
    inversion F as [|range v ranges' values' Hin F' E1 E2]. subst.
    unfold in_range in Hin. simpl in Hin.
    destruct (IH ranges values' Hrest F') as [IH1 IH2].
    cbn [ColorModelGroup.set_values shown map].
    fold (shown (ColorModelGroup.set_values g values')). rewrite IH1.
    split.
    + f_equal. unfold ColorSliderGroup.set_value.
      cbn [ColorSliderGroup.slider_value]. lia.
    + apply has_ranges_intro; try assumption; try reflexivity.
      unfold ColorSliderGroup.set_value.
      cbn [ColorSliderGroup.slider_value]. lia.
Qed.

Lemma set_values_twice (g : ColorModelGroup.t) :
  forall values,
    ColorModelGroup.set_values (ColorModelGroup.set_values g values) values
    = ColorModelGroup.set_values g values.
Proof.
  induction g as [|w g IH]; intros [|v values]; try reflexivity.
  cbn [ColorModelGroup.set_values]. rewrite IH. reflexivity.
Qed.

(** X14: what [set_values] writes, [on_slider_changed] reads back: after
    [set_values(values)] with one value per slider, each inside the range
    of its slider, the list that the group emits is [values]. *)
Theorem set_values_read_back (g : ColorModelGroup.t) (ranges : list (Z * Z))
  (values : list Z) (index value : Z)
  (Hg : has_ranges g ranges = true) (Hv : Forall2 in_range ranges values) :
  ColorModelGroup.on_slider_changed (ColorModelGroup.set_values g values)
    index value = values.
Proof. exact (proj1 (set_values_in_range g ranges values Hg Hv)). Qed.


(** X16: a number typed into a field, outside the range, is bounded: the
    slider and the field end at the nearest bound, and [valueChanged]
    carries the bound, twice when the slider had to move, once from the
    slider and once from the handler. *)
Theorem typed_value_bounded (int_ : string -> option Z)
  (w : ColorSliderGroup.t) (v : Z)
  (Hint : int_ (ColorSliderGroup.input_text w) = Some v)
  (Hrange : ColorSliderGroup.min_val w <= ColorSliderGroup.max_val w)
  (Hv : v < ColorSliderGroup.min_val w \/ ColorSliderGroup.max_val w < v) :
  let bound := Z.max (ColorSliderGroup.min_val w)
                     (Z.min (ColorSliderGroup.max_val w) v) in
  ColorSliderGroup.on_input_changed int_ w =
  (ColorSliderGroup.mk (ColorSliderGroup.index w) (ColorSliderGroup.min_val w)
     (ColorSliderGroup.max_val w) bound (ColorSliderGroup.str bound),
   if bound =? ColorSliderGroup.slider_value w
   then [(ColorSliderGroup.index w, bound)]
   else [(ColorSliderGroup.index w, bound); (ColorSliderGroup.index w, bound)]).
Proof.
  intros bound. unfold ColorSliderGroup.on_input_changed. rewrite Hint.
  cbv zeta. fold bound.
  destruct (Z.eqb_spec v bound) as [E|_]; [subst bound; lia|].
  cbn [negb]. unfold ColorSliderGroup.slider_setValue. cbv zeta.
  replace (Z.max (ColorSliderGroup.min_val w)
             (Z.min (ColorSliderGroup.max_val w) bound)) with bound
    by (subst bound; lia).
  destruct (Z.eqb_spec bound (ColorSliderGroup.slider_value w)) as [E|_].
  - destruct w as [i lo hi sv txt]. simpl in *. subst sv. reflexivity.
  - reflexivity.
Qed.

(** ** The window *)

Lemma as_built_groups (a : ColorPickerApp.t) :
  as_built a = true ->
  has_ranges (ColorPickerApp.rgb_group a) rgb_ranges = true /\
  has_ranges (ColorPickerApp.cmyk_group a) cmyk_ranges = true /\
  has_ranges (ColorPickerApp.hls_group a) hls_ranges = true.
Proof. unfold as_built. rewrite !andb_true_iff. tauto. Qed.

Lemma as_built_intro (a : ColorPickerApp.t) :
  has_ranges (ColorPickerApp.rgb_group a) rgb_ranges = true ->
  has_ranges (ColorPickerApp.cmyk_group a) cmyk_ranges = true ->
  has_ranges (ColorPickerApp.hls_group a) hls_ranges = true ->
  as_built a = true.
Proof. unfold as_built. intros -> -> ->. reflexivity. Qed.

Lemma channel_bound (x : Z) : channel (Z.max 0 (Z.min 255 x)).
Proof. channels. Qed.

Lemma percentage_bound (x : Z) : percentage (Z.max 0 (Z.min 100 x)).
Proof. percentages. Qed.

Lemma rgb_in_range (r g b : Z) :
  channel r -> channel g -> channel b -> Forall2 in_range rgb_ranges [r; g; b].
Proof. intros Hr Hg Hb. repeat constructor; simpl; channels. Qed.

Lemma cmyk_in_range (c m y k : Z) :
  percentage c -> percentage m -> percentage y -> percentage k ->
  Forall2 in_range cmyk_ranges [c; m; y; k].
Proof. intros Hc Hm Hy Hk. repeat constructor; simpl; percentages. Qed.

Lemma hls_in_range (h l s : Z) :
  0 <= h <= 360 -> percentage l -> percentage s ->
  Forall2 in_range hls_ranges [h; l; s].
Proof. intros Hh Hl Hs. repeat constructor; simpl; percentages. Qed.

(** [update_color_display] on a colour that the conversions accept. *)
Lemma update_color_display_returns (a : ColorPickerApp.t) (r g b : Z) :
  ColorPickerApp.current_rgb a = (r, g, b) ->
  channel r -> channel g -> channel b ->
  exists a', ColorPickerApp.update_color_display a = Some a' /\
    ColorPickerApp.current_rgb a' = (r, g, b) /\
    ColorPickerApp.rgb_group a' = ColorPickerApp.rgb_group a /\
    ColorPickerApp.cmyk_group a' = ColorPickerApp.cmyk_group a /\
    ColorPickerApp.hls_group a' = ColorPickerApp.hls_group a.
Proof.
  intros E Hr Hg Hb.
  destruct (rgb_to_cmyk_range r g b Hr Hg Hb) as (c & m & y & k & Ec & _).
  destruct (rgb_to_hls_ranges r g b Hr Hg Hb) as (h & s & l & Eh & _).
  destruct a as [rgb g1 g2 g3 style info]. cbn in E. subst rgb.
  unfold ColorPickerApp.update_color_display.
  cbn [ColorPickerApp.current_rgb]. rewrite Ec, Eh. cbn [bind].
  eexists. split; [reflexivity|]. repeat split; reflexivity.
Qed.

Lemma on_rgb_changed_spec (a : ColorPickerApp.t) (r g b : Z)
  (Ha : as_built a = true) :
  exists a' c m y k h s l,
    ColorPickerApp.on_rgb_changed a [r; g; b] = Some a' /\
    ColorPickerApp.current_rgb a'
    = (Z.max 0 (Z.min 255 r), Z.max 0 (Z.min 255 g), Z.max 0 (Z.min 255 b)) /\
    rgb_to_cmyk (Z.max 0 (Z.min 255 r)) (Z.max 0 (Z.min 255 g))
                (Z.max 0 (Z.min 255 b)) = Some (c, m, y, k) /\
    rgb_to_hls (Z.max 0 (Z.min 255 r)) (Z.max 0 (Z.min 255 g))
               (Z.max 0 (Z.min 255 b)) = Some (h, s, l) /\
    shown (ColorPickerApp.cmyk_group a') = [c; m; y; k] /\
    shown (ColorPickerApp.hls_group a') = [h; s; l] /\
    ColorPickerApp.rgb_group a' = ColorPickerApp.rgb_group a /\
    as_built a' = true.
Proof.
  destruct (as_built_groups a Ha) as (Hrgb & Hcmyk & Hhls).
  pose proof (channel_bound r) as Hr. pose proof (channel_bound g) as Hg.
  pose proof (channel_bound b) as Hb.
  set (r' := Z.max 0 (Z.min 255 r)) in *.
  set (g' := Z.max 0 (Z.min 255 g)) in *.
  set (b' := Z.max 0 (Z.min 255 b)) in *.
  destruct (rgb_to_cmyk_range r' g' b' Hr Hg Hb)
    as (c & m & y & k & Ec & Pc & Pm & Py & Pk).
  destruct (rgb_to_hls_ranges r' g' b' Hr Hg Hb)
    as (h & s & l & Eh & Rh & Rs & Rl).
  destruct (set_values_in_range _ _ _ Hcmyk (cmyk_in_range c m y k Pc Pm Py Pk))
    as [S1 S2].
  destruct (set_values_in_range _ _ _ Hhls (hls_in_range h s l Rh Rs Rl))
    as [S3 S4].
  unfold ColorPickerApp.on_rgb_changed. cbv zeta. fold r' g' b'.
  rewrite Ec. cbn [bind]. rewrite Eh. cbn [bind].
  match goal with
  | |- context [ColorPickerApp.update_color_display ?x] =>
      destruct (update_color_display_returns x r' g' b' eq_refl Hr Hg Hb)
        as (a' & E & E1 & E2 & E3 & E4)
  end.
  cbn [ColorPickerApp.rgb_group ColorPickerApp.cmyk_group
       ColorPickerApp.hls_group] in E2, E3, E4.
  exists a', c, m, y, k, h, s, l.
  rewrite E3, E4. repeat (split; [assumption || reflexivity|]).
  apply as_built_intro; rewrite ?E2, ?E3, ?E4; assumption.
Qed.

Lemma on_cmyk_changed_spec (a : ColorPickerApp.t) (c m y k : Z)
  (Ha : as_built a = true) :
  exists a' r g b h s l,
    ColorPickerApp.on_cmyk_changed a [c; m; y; k] = Some a' /\
    cmyk_to_rgb (Z.max 0 (Z.min 100 c)) (Z.max 0 (Z.min 100 m))
                (Z.max 0 (Z.min 100 y)) (Z.max 0 (Z.min 100 k))
    = Some (r, g, b) /\
    rgb_to_hls r g b = Some (h, s, l) /\
    ColorPickerApp.current_rgb a' = (r, g, b) /\
    shown (ColorPickerApp.rgb_group a') = [r; g; b] /\
    shown (ColorPickerApp.hls_group a') = [h; s; l] /\
    ColorPickerApp.cmyk_group a' = ColorPickerApp.cmyk_group a /\
    as_built a' = true.
Proof.
  destruct (as_built_groups a Ha) as (Hrgb & Hcmyk & Hhls).
  pose proof (percentage_bound c) as Hc. pose proof (percentage_bound m) as Hm.
  pose proof (percentage_bound y) as Hy. pose proof (percentage_bound k) as Hk.
  set (c' := Z.max 0 (Z.min 100 c)) in *.
  set (m' := Z.max 0 (Z.min 100 m)) in *.
  set (y' := Z.max 0 (Z.min 100 y)) in *.
  set (k' := Z.max 0 (Z.min 100 k)) in *.
  destruct (cmyk_to_rgb_parts c' m' y' k' Hc Hm Hy Hk)
    as (r & g & b & Er & _ & _ & _ & Rr & Rg & Rb).
  destruct (rgb_to_hls_ranges r g b Rr Rg Rb)
    as (h & s & l & Eh & Rh & Rs & Rl).
  destruct (set_values_in_range _ _ _ Hrgb (rgb_in_range r g b Rr Rg Rb))
    as [S1 S2].
  destruct (set_values_in_range _ _ _ Hhls (hls_in_range h s l Rh Rs Rl))
    as [S3 S4].
  unfold ColorPickerApp.on_cmyk_changed. cbv zeta. fold c' m' y' k'.
  rewrite Er. cbn [bind]. rewrite Eh. cbn [bind].
  match goal with
  | |- context [ColorPickerApp.update_color_display ?x] =>
      destruct (update_color_display_returns x r g b eq_refl Rr Rg Rb)
        as (a' & E & E1 & E2 & E3 & E4)
  end.
  cbn [ColorPickerApp.rgb_group ColorPickerApp.cmyk_group
       ColorPickerApp.hls_group] in E2, E3, E4.
  exists a', r, g, b, h, s, l.
  rewrite E2, E4. repeat (split; [assumption || reflexivity|]).
  apply as_built_intro; rewrite ?E2, ?E3, ?E4; assumption.
Qed.

(** X17: [on_rgb_changed] takes every three integers: it bounds them to
    channels, makes them the current colour, and afterwards the CMYK
    sliders show the tuple of [rgb_to_cmyk] and the sliders Hue,
    Lightness and Saturation show the tuple of [rgb_to_hls], position by
    position and without any slider bounding a value; the RGB sliders
    are not written. *)
Theorem on_rgb_changed_shows (a : ColorPickerApp.t) (r g b : Z)
  (Ha : as_built a = true) :
  exists a' c m y k h s l,
    ColorPickerApp.on_rgb_changed a [r; g; b] = Some a' /\
    ColorPickerApp.current_rgb a'
    = (Z.max 0 (Z.min 255 r), Z.max 0 (Z.min 255 g), Z.max 0 (Z.min 255 b)) /\
    rgb_to_cmyk (Z.max 0 (Z.min 255 r)) (Z.max 0 (Z.min 255 g))
                (Z.max 0 (Z.min 255 b)) = Some (c, m, y, k) /\
    rgb_to_hls (Z.max 0 (Z.min 255 r)) (Z.max 0 (Z.min 255 g))
               (Z.max 0 (Z.min 255 b)) = Some (h, s, l) /\
    shown (ColorPickerApp.cmyk_group a') = [c; m; y; k] /\
    shown (ColorPickerApp.hls_group a') = [h; s; l] /\
    ColorPickerApp.rgb_group a' = ColorPickerApp.rgb_group a /\
    as_built a' = true.
Proof. exact (on_rgb_changed_spec a r g b Ha). Qed.

(** X18: [on_cmyk_changed] takes every four integers: it bounds them to
    percentages, the current colour becomes their [cmyk_to_rgb], the RGB
    sliders show it, the sliders Hue, Lightness and Saturation show the
    tuple of [rgb_to_hls] of it, and the CMYK sliders are not written. *)
Theorem on_cmyk_changed_shows (a : ColorPickerApp.t) (c m y k : Z)
  (Ha : as_built a = true) :
  exists a' r g b h s l,
    ColorPickerApp.on_cmyk_changed a [c; m; y; k] = Some a' /\
    cmyk_to_rgb (Z.max 0 (Z.min 100 c)) (Z.max 0 (Z.min 100 m))
                (Z.max 0 (Z.min 100 y)) (Z.max 0 (Z.min 100 k))
    = Some (r, g, b) /\
    rgb_to_hls r g b = Some (h, s, l) /\
    ColorPickerApp.current_rgb a' = (r, g, b) /\
    shown (ColorPickerApp.rgb_group a') = [r; g; b] /\
    shown (ColorPickerApp.hls_group a') = [h; s; l] /\
    ColorPickerApp.cmyk_group a' = ColorPickerApp.cmyk_group a /\
    as_built a' = true.
Proof. exact (on_cmyk_changed_spec a c m y k Ha). Qed.

Lemma on_hls_changed_spec (a : ColorPickerApp.t) (h l s : Z)
  (Ha : as_built a = true) :
  exists a' r g b c m y k,
    ColorPickerApp.on_hls_changed a [h; l; s] = Some a' /\
    hls_to_rgb (Z.max 0 (Z.min 360 h)) (Z.max 0 (Z.min 100 l))
               (Z.max 0 (Z.min 100 s)) = Some (r, g, b) /\
    rgb_to_cmyk r g b = Some (c, m, y, k) /\
    ColorPickerApp.current_rgb a' = (r, g, b) /\
    shown (ColorPickerApp.rgb_group a') = [r; g; b] /\
    shown (ColorPickerApp.cmyk_group a') = [c; m; y; k] /\
    ColorPickerApp.hls_group a' = ColorPickerApp.hls_group a /\
    as_built a' = true.
Proof.
  destruct (as_built_groups a Ha) as (Hrgb & Hcmyk & Hhls).
  assert (Hh : 0 <= Z.max 0 (Z.min 360 h) <= 360) by lia.
  pose proof (percentage_bound l) as Hl. pose proof (percentage_bound s) as Hs.
  set (h' := Z.max 0 (Z.min 360 h)) in *.
  set (l' := Z.max 0 (Z.min 100 l)) in *.
  set (s' := Z.max 0 (Z.min 100 s)) in *.
  destruct (hls_to_rgb_returns h' l' s' Hh Hl Hs) as (r & g & b & Er & Rr & Rg & Rb).
  destruct (rgb_to_cmyk_range r g b Rr Rg Rb)
    as (c & m & y & k & Ec & Pc & Pm & Py & Pk).
  destruct (set_values_in_range _ _ _ Hrgb (rgb_in_range r g b Rr Rg Rb))
    as [S1 S2].
  destruct (set_values_in_range _ _ _ Hcmyk (cmyk_in_range c m y k Pc Pm Py Pk))
    as [S3 S4].
  unfold ColorPickerApp.on_hls_changed. cbv zeta. fold h' l' s'.
  rewrite Er. cbn [bind]. rewrite Ec. cbn [bind].
  match goal with
  | |- context [ColorPickerApp.update_color_display ?x] =>
      destruct (update_color_display_returns x r g b eq_refl Rr Rg Rb)
        as (a' & E & E1 & E2 & E3 & E4)
  end.
  cbn [ColorPickerApp.rgb_group ColorPickerApp.cmyk_group
       ColorPickerApp.hls_group] in E2, E3, E4.
  exists a', r, g, b, c, m, y, k.
  rewrite E2, E3. repeat (split; [assumption || reflexivity|]).
  apply as_built_intro; rewrite ?E2, ?E3, ?E4; assumption.
Qed.

(** X19: [on_hls_changed] takes every three integers: it bounds the hue
    to [[0, 360]] and the two others to percentages, the current colour
    becomes their [hls_to_rgb], the RGB sliders show it, the CMYK
    sliders show its [rgb_to_cmyk], and the HLS sliders are not
    written. *)
Theorem on_hls_changed_shows (a : ColorPickerApp.t) (h l s : Z)
  (Ha : as_built a = true) :
  exists a' r g b c m y k,
    ColorPickerApp.on_hls_changed a [h; l; s] = Some a' /\
    hls_to_rgb (Z.max 0 (Z.min 360 h)) (Z.max 0 (Z.min 100 l))
               (Z.max 0 (Z.min 100 s)) = Some (r, g, b) /\
    rgb_to_cmyk r g b = Some (c, m, y, k) /\
    ColorPickerApp.current_rgb a' = (r, g, b) /\
    shown (ColorPickerApp.rgb_group a') = [r; g; b] /\
    shown (ColorPickerApp.cmyk_group a') = [c; m; y; k] /\
    ColorPickerApp.hls_group a' = ColorPickerApp.hls_group a /\
    as_built a' = true.
Proof. exact (on_hls_changed_spec a h l s Ha). Qed.

(** ** A slider is moved *)

Lemma has_ranges_nth (g : ColorModelGroup.t) :
  forall ranges n lo hi,
    has_ranges g ranges = true -> nth_error ranges n = Some (lo, hi) ->
    exists w, nth_error g n = Some w /\
      ColorSliderGroup.min_val w = lo /\ ColorSliderGroup.max_val w = hi /\
      lo <= ColorSliderGroup.slider_value w <= hi.
Proof.
  induction g as [|x g IH]; intros [|[lo0 hi0] ranges] n lo hi H Hn;
    try discriminate; try (destruct n; discriminate).
  destruct (has_ranges_cons _ _ _ _ H) as (w & g' & E & Hlo & Hhi & Hv & Hrest).
  injection E as <- <-. destruct n as [|n]; simpl in Hn.
  - injection Hn as <- <-. exists x. repeat split; assumption || lia.
  - exact (IH ranges n lo hi Hrest Hn).
Qed.

Lemma has_ranges_replace (g : ColorModelGroup.t) :
  forall ranges n w w',
    has_ranges g ranges = true -> nth_error g n = Some w ->
    ColorSliderGroup.min_val w' = ColorSliderGroup.min_val w ->
    ColorSliderGroup.max_val w' = ColorSliderGroup.max_val w ->
    ColorSliderGroup.min_val w <= ColorSliderGroup.slider_value w'
      <= ColorSliderGroup.max_val w ->
    has_ranges (ColorModelGroup.replace g n w') ranges = true.
Proof.
  induction g as [|x g IH]; intros [|[lo hi] ranges] n w w' H Hn Hlo Hhi Hv;
    try discriminate; try (destruct n; discriminate).
  destruct (has_ranges_cons _ _ _ _ H) as (w0 & g' & E & Elo & Ehi & Ev & Hrest).
  injection E as <- <-. destruct n as [|n]; simpl in Hn.
  - injection Hn as <-. cbn [ColorModelGroup.replace].
    apply has_ranges_intro; try assumption; congruence || lia.
  - cbn [ColorModelGroup.replace].
    apply has_ranges_intro; try assumption.
    exact (IH ranges n w w' Hrest Hn Hlo Hhi Hv).
Qed.

Lemma shown_replace (g : ColorModelGroup.t) :
  forall n w w', nth_error g n = Some w ->
    nth_error (shown (ColorModelGroup.replace g n w')) n
    = Some (ColorSliderGroup.slider_value w') /\
    forall k, k <> n ->
      nth_error (shown (ColorModelGroup.replace g n w')) k = nth_error (shown g) k.
Proof.
  induction g as [|x g IH]; intros [|n] w w' Hn; simpl in Hn; try discriminate.
  - split; [reflexivity|]. intros [|k] Hk; [contradiction|reflexivity].
  - destruct (IH n w w' Hn) as [IH1 IH2]. split; [exact IH1|].
    intros [|k] Hk; [reflexivity|]. apply IH2. congruence.
Qed.

(** Slider [n] is moved to another value of its range: the group emits
    once, what its sliders show afterwards. *)
Lemma group_slider_moved (g : ColorModelGroup.t) (ranges : list (Z * Z))
  (n : nat) (w : ColorSliderGroup.t) (v : Z) :
  has_ranges g ranges = true -> nth_error g n = Some w ->
  ColorSliderGroup.min_val w <= v <= ColorSliderGroup.max_val w ->
  v <> ColorSliderGroup.slider_value w ->
  exists g', ColorModelGroup.slider_moved g n v = (g', [shown g']) /\
    has_ranges g' ranges = true /\
    nth_error (shown g') n = Some v /\
    forall k, k <> n -> nth_error (shown g') k = nth_error (shown g) k.
Proof.
  intros Hg Hn Hv Hne.
  unfold ColorModelGroup.slider_moved. rewrite Hn.
  unfold ColorSliderGroup.slider_setValue. cbv zeta.
  replace (Z.max (ColorSliderGroup.min_val w) (Z.min (ColorSliderGroup.max_val w) v))
    with v by lia.
  destruct (Z.eqb_spec v (ColorSliderGroup.slider_value w)); [contradiction|].
  unfold ColorSliderGroup.on_slider_changed.
  cbn [ColorSliderGroup.index ColorSliderGroup.min_val ColorSliderGroup.max_val
       ColorSliderGroup.slider_value ColorModelGroup.handled
       ColorModelGroup.deliver map ColorModelGroup.on_slider_changed].
  eexists. split; [reflexivity|].
  split; [|exact (shown_replace g n w _ Hn)].
  apply (has_ranges_replace g ranges n w); try assumption; reflexivity.
Qed.

Lemma shown_three (g : ColorModelGroup.t) (r1 r2 r3 : Z * Z) :
  has_ranges g [r1; r2; r3] = true ->
  exists x1 x2 x3, shown g = [x1; x2; x3] /\
    in_range r1 x1 /\ in_range r2 x2 /\ in_range r3 x3.
Proof.
  intros H. apply has_ranges_shown in H.
  inversion H as [|? x1 ? l1 Hx1 F1]; subst.
  inversion F1 as [|? x2 ? l2 Hx2 F2]; subst.
  inversion F2 as [|? x3 ? l3 Hx3 F3]; subst.
  inversion F3; subst. exists x1, x2, x3.
  split; [reflexivity|]. split; [assumption|]. split; assumption.
Qed.

Lemma on_rgb_changed_channels (a : ColorPickerApp.t) (r g b : Z)
  (Ha : as_built a = true) (Hr : channel r) (Hg : channel g) (Hb : channel b) :
  exists a', ColorPickerApp.on_rgb_changed a [r; g; b] = Some a' /\
    ColorPickerApp.current_rgb a' = (r, g, b) /\
    ColorPickerApp.rgb_group a' = ColorPickerApp.rgb_group a /\
    as_built a' = true.
Proof.
  destruct (on_rgb_changed_spec a r g b Ha)
    as (a' & c & m & y & k & h & s & l & E & Ecur & _ & _ & _ & _ & Ergb & Hb').
  replace (Z.max 0 (Z.min 255 r)) with r in Ecur by channels.
  replace (Z.max 0 (Z.min 255 g)) with g in Ecur by channels.
  replace (Z.max 0 (Z.min 255 b)) with b in Ecur by channels.
  exists a'. repeat split; assumption.
Qed.

(** X20: an RGB slider is moved to another value of its range: the
    handlers run once, and the current colour is what the three RGB
    sliders show, the moved one at its new value and the two others
    where they were. *)
Theorem rgb_slider_moved (a : ColorPickerApp.t) (n : nat) (v : Z)
  (Ha : as_built a = true) (Hn : (n < 3)%nat) (Hv : channel v)
  (Hne : nth_error (shown (ColorPickerApp.rgb_group a)) n <> Some v) :
  exists a' x1 x2 x3,
    ColorPickerApp.slider_moved a ColorPickerApp.RGB n v = Some a' /\
    shown (ColorPickerApp.rgb_group a') = [x1; x2; x3] /\
    ColorPickerApp.current_rgb a' = (x1, x2, x3) /\
    nth_error [x1; x2; x3] n = Some v /\
    (forall k, k <> n ->
       nth_error [x1; x2; x3] k
       = nth_error (shown (ColorPickerApp.rgb_group a)) k) /\
    as_built a' = true.
Proof.
  destruct (as_built_groups a Ha) as (Hrgb & Hcmyk & Hhls).
  assert (Hrange : nth_error rgb_ranges n = Some (0, 255)).
  { destruct n as [|[|[|n]]]; try reflexivity. lia. }
  destruct (has_ranges_nth _ _ _ _ _ Hrgb Hrange) as (w & Ew & Hlo & Hhi & Hw).
  assert (Hne' : v <> ColorSliderGroup.slider_value w).
  { intros ->. apply Hne. unfold shown. rewrite nth_error_map, Ew. reflexivity. }
  destruct (group_slider_moved _ _ n w v Hrgb Ew ltac:(channels) Hne')
    as (g' & Eg & Hg' & Hnth & Hothers).
  destruct (shown_three g' _ _ _ Hg') as (x1 & x2 & x3 & Es & R1 & R2 & R3).
  unfold in_range in R1, R2, R3. simpl in R1, R2, R3.
  set (a0 := ColorPickerApp.with_group a ColorPickerApp.RGB g').
  assert (Ha0 : as_built a0 = true) by (apply as_built_intro; assumption).
  destruct (on_rgb_changed_channels a0 x1 x2 x3 Ha0 R1 R2 R3)
    as (a' & E & Ecur & Ergb & Hb').
  exists a', x1, x2, x3.
  split.
  { unfold ColorPickerApp.slider_moved.
    cbn [ColorPickerApp.group]. rewrite Eg, Es. fold a0.
    cbn [ColorPickerApp.run ColorPickerApp.handler]. rewrite E. reflexivity. }
  rewrite Ergb. subst a0. cbn [ColorPickerApp.with_group ColorPickerApp.rgb_group].
  rewrite <- Es. repeat (split; [assumption || reflexivity|]). exact Hb'.
Qed.

(** ** The grays and the HLS sliders *)

Lemma rgb_to_hls_gray_tuple (r : Z) (Hr : channel r) :
  exists l, rgb_to_hls r r r = Some (0, 0, l) /\ percentage l.
Proof.
  destruct (rgb_to_hls_ranges r r r Hr Hr Hr) as (h & s & l & E & _ & _ & Rl).
  destruct (rgb_to_hls_parts r r r r r Hr Hr Hr ltac:(lia) ltac:(lia))
    as (h' & s' & l' & E' & Esl & _ & Hh).
  rewrite E in E'. injection E' as <- <- <-.
  unfold sl_of in Esl. rewrite delta_eqb, Z.eqb_refl in Esl by assumption.
  destruct (round (lightness r r * 100)%float) as [l0|]; [|discriminate].
  cbn [bind] in Esl. injection Esl as <- <-.
  rewrite (Hh eq_refl) in E. exists l0. split; assumption.
Qed.

(** X21: after a gray was chosen in RGB, the sliders Hue, Lightness and
    Saturation show hue 0, then the saturation 0 and then the lightness
    of the gray; the first move of the hue slider sends these three to
    [hls_to_rgb] as hue, lightness and saturation, and the current
    colour becomes black, whatever the gray was. *)
Theorem gray_then_hue_gives_black (a : ColorPickerApp.t) (r v : Z)
  (Ha : as_built a = true) (Hr : channel r) (Hv : 0 < v <= 360) :
  exists a1 a2 l,
    ColorPickerApp.on_rgb_changed a [r; r; r] = Some a1 /\
    ColorPickerApp.current_rgb a1 = (r, r, r) /\
    shown (ColorPickerApp.hls_group a1) = [0; 0; l] /\
    ColorPickerApp.slider_moved a1 ColorPickerApp.HLS 0 v = Some a2 /\
    shown (ColorPickerApp.hls_group a2) = [v; 0; l] /\
    ColorPickerApp.current_rgb a2 = (0, 0, 0).
Proof.
  destruct (on_rgb_changed_spec a r r r Ha)
    as (a1 & c & m & y & k & h & s & l & E1 & Ecur & _ & Eh & _ & Shls & _ & Ha1).
  replace (Z.max 0 (Z.min 255 r)) with r in * by channels.
  destruct (rgb_to_hls_gray_tuple r Hr) as (l0 & Eg & Rl).
  rewrite Eh in Eg. injection Eg as -> -> ->.
  destruct (as_built_groups a1 Ha1) as (Hrgb & Hcmyk & Hhls).
  destruct (has_ranges_nth _ _ 0%nat 0 360 Hhls eq_refl) as (w & Ew & Hlo & Hhi & Hw).
  assert (Ew0 : ColorSliderGroup.slider_value w = 0).
  { assert (H0 : nth_error (shown (ColorPickerApp.hls_group a1)) 0 = Some 0)
      by (rewrite Shls; reflexivity).
    unfold shown in H0. rewrite nth_error_map, Ew in H0.
    simpl in H0. congruence. }
  destruct (group_slider_moved _ _ 0%nat w v Hhls Ew ltac:(lia) ltac:(lia))
    as (g' & Emove & Hg' & Hnth & Hothers).
  destruct (shown_three g' _ _ _ Hg') as (x1 & x2 & x3 & Es & _).
  assert (X1 : x1 = v) by (rewrite Es in Hnth; simpl in Hnth; congruence).
  assert (X2 : x2 = 0).
  { pose proof (Hothers 1%nat ltac:(lia)) as Hk. rewrite Es, Shls in Hk.
    simpl in Hk. congruence. }
  assert (X3 : x3 = l0).
  { pose proof (Hothers 2%nat ltac:(lia)) as Hk. rewrite Es, Shls in Hk.
    simpl in Hk. congruence. }
  subst x1 x2 x3.
  set (a0 := ColorPickerApp.with_group a1 ColorPickerApp.HLS g').
  assert (Ha0 : as_built a0 = true) by (apply as_built_intro; assumption).
  destruct (on_hls_changed_spec a0 v 0 l0 Ha0)
    as (a2 & r2 & g2 & b2 & c2 & m2 & y2 & k2 & E2 & Ergb & _ & Ecur2 & _ & _ & Ehls & _).
  replace (Z.max 0 (Z.min 360 v)) with v in Ergb by lia.
  replace (Z.max 0 (Z.min 100 l0)) with l0 in Ergb by percentages.
  change (Z.max 0 (Z.min 100 0)) with 0 in Ergb.
  rewrite (proj1 (extreme_lightness v l0 ltac:(lia) Rl)) in Ergb.
  injection Ergb as <- <- <-.
  exists a1, a2, l0. repeat (split; [assumption|]).
  split; [|split; [|exact Ecur2]].
  - unfold ColorPickerApp.slider_moved.
    cbn [ColorPickerApp.group]. rewrite Emove, Es. fold a0.
    cbn [ColorPickerApp.run ColorPickerApp.handler]. rewrite E2. reflexivity.
  - rewrite Ehls. subst a0.
    cbn [ColorPickerApp.with_group ColorPickerApp.hls_group]. exact Es.
Qed.

(** ** Handlers run again, and the colour dialog *)

Lemma on_rgb_changed_again (a a' : ColorPickerApp.t) (values : list Z) :
  ColorPickerApp.on_rgb_changed a values = Some a' ->
  ColorPickerApp.on_rgb_changed a' values = Some a'.
Proof.
  destruct values as [|r [|g [|b [|x values]]]]; try discriminate.
  unfold ColorPickerApp.on_rgb_changed. cbv zeta.
  destruct (rgb_to_cmyk (Z.max 0 (Z.min 255 r)) (Z.max 0 (Z.min 255 g))
              (Z.max 0 (Z.min 255 b))) as [[[[c m] y] k]|] eqn:Ec; [|discriminate].
  destruct (rgb_to_hls (Z.max 0 (Z.min 255 r)) (Z.max 0 (Z.min 255 g))
              (Z.max 0 (Z.min 255 b))) as [[[h l] s]|] eqn:Eh; [|discriminate].
  cbn [bind]. unfold ColorPickerApp.update_color_display.
  cbn [ColorPickerApp.current_rgb]. rewrite Ec, Eh. cbn [bind].
  intros H. injection H as <-.
  cbn [ColorPickerApp.current_rgb ColorPickerApp.rgb_group
       ColorPickerApp.cmyk_group ColorPickerApp.hls_group
       ColorPickerApp.color_display ColorPickerApp.color_info].
  rewrite !set_values_twice. reflexivity.
Qed.

(** X22: [on_rgb_changed] is idempotent: run a second time on the same
    values, it returns the window as the first run left it. *)
Theorem on_rgb_changed_idempotent (a : ColorPickerApp.t) (r g b : Z)
  (Ha : as_built a = true) :
  exists a', ColorPickerApp.on_rgb_changed a [r; g; b] = Some a' /\
             ColorPickerApp.on_rgb_changed a' [r; g; b] = Some a'.
Proof.
  destruct (on_rgb_changed_spec a r g b Ha) as (a' & c & m & y & k & h & s & l & E & _).
  exists a'. split; [exact E|]. exact (on_rgb_changed_again a a' _ E).
Qed.

(** X23: [pick_color] leaves the window as it is when the dialog is
    cancelled; with a colour chosen, the RGB sliders show the colour, it
    is the current colour, and the CMYK sliders show its
    [rgb_to_cmyk]. *)
Theorem pick_color_shows (a : ColorPickerApp.t) (r g b : Z)
  (Ha : as_built a = true) (Hr : channel r) (Hg : channel g) (Hb : channel b) :
  ColorPickerApp.pick_color a None = Some a /\
  exists a' c m y k,
    ColorPickerApp.pick_color a (Some (r, g, b)) = Some a' /\
    ColorPickerApp.current_rgb a' = (r, g, b) /\
    shown (ColorPickerApp.rgb_group a') = [r; g; b] /\
    rgb_to_cmyk r g b = Some (c, m, y, k) /\
    shown (ColorPickerApp.cmyk_group a') = [c; m; y; k] /\
    as_built a' = true.
Proof.
  split; [reflexivity|].
  destruct (as_built_groups a Ha) as (Hrgb & Hcmyk & Hhls).
  destruct (set_values_in_range _ _ _ Hrgb (rgb_in_range r g b Hr Hg Hb))
    as [S1 S2].
  unfold ColorPickerApp.pick_color.
  match goal with
  | |- context [ColorPickerApp.on_rgb_changed ?x _] => set (a0 := x)
  end.
  assert (Ha0 : as_built a0 = true) by (apply as_built_intro; assumption).
  destruct (on_rgb_changed_spec a0 r g b Ha0)
    as (a' & c & m & y & k & h & s & l & E & Ecur & Ec & _ & Scmyk & _ & Ergb & Ha').
  replace (Z.max 0 (Z.min 255 r)) with r in * by channels.
  replace (Z.max 0 (Z.min 255 g)) with g in * by channels.
  replace (Z.max 0 (Z.min 255 b)) with b in * by channels.
  exists a', c, m, y, k. rewrite Ergb. subst a0.
  cbn [ColorPickerApp.rgb_group]. repeat (split; [assumption|]). exact Ha'.
Qed.

(** ** The further theorems at one input *)

Lemma rgb_to_cmyk_percentages_witness :
  channel 12 /\ channel 200 /\ channel 7 /\
  exists c m y k, rgb_to_cmyk 12 200 7 = Some (c, m, y, k) /\
    percentage c /\ percentage m /\ percentage y /\ percentage k.
Proof.
  assert (H12 : channel 12) by channels.
  assert (H200 : channel 200) by channels.
  assert (H7 : channel 7) by channels.
  repeat (split; [assumption|]).
  exact (rgb_to_cmyk_percentages 12 200 7 H12 H200 H7).
Defined.

Lemma rgb_to_cmyk_brightest_witness :
  channel 12 /\ channel 200 /\ channel 7 /\
  exists c m y k, rgb_to_cmyk 12 200 7 = Some (c, m, y, k) /\
    (200 <= 12 -> 7 <= 12 -> c = 0) /\
    (12 <= 200 -> 7 <= 200 -> m = 0) /\
    (12 <= 7 -> 200 <= 7 -> y = 0).
Proof.
  assert (H12 : channel 12) by channels.
  assert (H200 : channel 200) by channels.
  assert (H7 : channel 7) by channels.
  repeat (split; [assumption|]).
  exact (rgb_to_cmyk_brightest 12 200 7 H12 H200 H7).
Defined.

Lemma cmyk_to_rgb_channels_witness :
  percentage 10 /\ percentage 20 /\ percentage 30 /\ percentage 40 /\
  exists r g b, cmyk_to_rgb 10 20 30 40 = Some (r, g, b) /\
    channel r /\ channel g /\ channel b /\
    round (255 * (1 - of_int 10 / f100) * (1 - of_int 40 / f100))%float = Some r /\
    round (255 * (1 - of_int 20 / f100) * (1 - of_int 40 / f100))%float = Some g /\
    round (255 * (1 - of_int 30 / f100) * (1 - of_int 40 / f100))%float = Some b.
Proof.
  assert (H10 : percentage 10) by percentages.
  assert (H20 : percentage 20) by percentages.
  assert (H30 : percentage 30) by percentages.
  assert (H40 : percentage 40) by percentages.
  repeat (split; [assumption|]).
  exact (cmyk_to_rgb_channels 10 20 30 40 H10 H20 H30 H40).
Defined.

Lemma cmyk_to_rgb_antitone_witness :
  percentage 10 /\ percentage 20 /\ percentage 30 /\ percentage 40 /\
  percentage 50 /\ 10 <= 20 /\ 20 <= 20 /\ 30 <= 50 /\ 40 <= 40 /\
  exists r g b r' g' b',
    cmyk_to_rgb 10 20 30 40 = Some (r, g, b) /\
    cmyk_to_rgb 20 20 50 40 = Some (r', g', b') /\
    r' <= r /\ g' <= g /\ b' <= b.
Proof.
  assert (H10 : percentage 10) by percentages.
  assert (H20 : percentage 20) by percentages.
  assert (H30 : percentage 30) by percentages.
  assert (H40 : percentage 40) by percentages.
  assert (H50 : percentage 50) by percentages.
  assert (L1 : 10 <= 20) by lia. assert (L2 : 20 <= 20) by lia.
  assert (L3 : 30 <= 50) by lia. assert (L4 : 40 <= 40) by lia.
  repeat (split; [assumption|]).
  exact (cmyk_to_rgb_antitone 10 20 30 40 20 20 50 40
           H10 H20 H30 H40 H20 H20 H50 H40 L1 L2 L3 L4).
Defined.


Lemma key_round_trip_witness :
  percentage 35 /\ percentage 0 /\ percentage 80 /\ percentage 60 /\
  Z.min (Z.min 35 0) 80 = 0 /\
  exists r g b c' m' y',
    cmyk_to_rgb 35 0 80 60 = Some (r, g, b) /\
    rgb_to_cmyk r g b = Some (c', m', y', 60).
Proof.
  assert (H35 : percentage 35) by percentages.
  assert (H0 : percentage 0) by percentages.
  assert (H80 : percentage 80) by percentages.
  assert (H60 : percentage 60) by percentages.
  assert (Hmin : Z.min (Z.min 35 0) 80 = 0) by reflexivity.
  repeat (split; [assumption|]).
  exact (key_round_trip 35 0 80 60 H35 H0 H80 H60 Hmin).
Defined.

Lemma rgb_to_hls_percentages_witness :
  channel 12 /\ channel 200 /\ channel 7 /\
  exists h s l, rgb_to_hls 12 200 7 = Some (h, s, l) /\
                percentage s /\ percentage l.
Proof.
  assert (H12 : channel 12) by channels.
  assert (H200 : channel 200) by channels.
  assert (H7 : channel 7) by channels.
  repeat (split; [assumption|]).
  exact (rgb_to_hls_percentages 12 200 7 H12 H200 H7).
Defined.

Lemma rgb_to_hls_extremes_witness :
  channel 12 /\ channel 200 /\ channel 7 /\ channel 100 /\
  Z.max (Z.max 12 200) 7 = Z.max (Z.max 7 100) 200 /\
  Z.min (Z.min 12 200) 7 = Z.min (Z.min 7 100) 200 /\
  exists h h' s l, rgb_to_hls 12 200 7 = Some (h, s, l) /\
                   rgb_to_hls 7 100 200 = Some (h', s, l).
Proof.
  assert (H12 : channel 12) by channels.
  assert (H200 : channel 200) by channels.
  assert (H7 : channel 7) by channels.
  assert (H100 : channel 100) by channels.
  assert (Hmax : Z.max (Z.max 12 200) 7 = Z.max (Z.max 7 100) 200) by reflexivity.
  assert (Hmin : Z.min (Z.min 12 200) 7 = Z.min (Z.min 7 100) 200) by reflexivity.
  repeat (split; [assumption|]).
  exact (rgb_to_hls_extremes 12 200 7 7 100 200 H12 H200 H7 H7 H100 H200 Hmax Hmin).
Defined.

Lemma rgb_to_hls_half_lightness_witness :
  channel 128 /\ channel 127 /\
  Z.max (Z.max 128 127) 127 + Z.min (Z.min 128 127) 127 = 255 /\
  exists h, rgb_to_hls 128 127 127 = Some (h, 100, 50).
Proof.
  assert (H128 : channel 128) by channels.
  assert (H127 : channel 127) by channels.
  assert (Hsum : Z.max (Z.max 128 127) 127 + Z.min (Z.min 128 127) 127 = 255)
    by reflexivity.
  repeat (split; [assumption|]).
  exact (rgb_to_hls_half_lightness 128 127 127 H128 H127 H127 Hsum).
Defined.

Lemma rgb_to_hls_pure_hues_witness :
  channel 200 /\ 0 <= 40 < 200 /\
  exists s l,
    rgb_to_hls 200 40 40 = Some (0, s, l) /\
    rgb_to_hls 200 200 40 = Some (60, s, l) /\
    rgb_to_hls 40 200 40 = Some (120, s, l) /\
    rgb_to_hls 40 200 200 = Some (180, s, l) /\
    rgb_to_hls 40 40 200 = Some (240, s, l) /\
    rgb_to_hls 200 40 200 = Some (300, s, l).
Proof.
  assert (H200 : channel 200) by channels.
  assert (H40 : 0 <= 40 < 200) by lia.
  repeat (split; [assumption|]).
  exact (rgb_to_hls_pure_hues 200 40 H200 H40).
Defined.

Lemma hls_to_rgb_hue_wraps_witness :
  percentage 40 /\ percentage 70 /\
  exists t, hls_to_rgb 360 40 70 = Some t /\ hls_to_rgb 0 40 70 = Some t.
Proof.
  assert (H40 : percentage 40) by percentages.
  assert (H70 : percentage 70) by percentages.
  repeat (split; [assumption|]).
  exact (hls_to_rgb_hue_wraps 40 70 H40 H70).
Defined.

Lemma hls_to_rgb_extreme_lightness_witness :
  0 <= 210 <= 360 /\ percentage 70 /\
  hls_to_rgb 210 0 70 = Some (0, 0, 0) /\
  hls_to_rgb 210 100 70 = Some (255, 255, 255).
Proof.
  assert (H210 : 0 <= 210 <= 360) by lia.
  assert (H70 : percentage 70) by percentages.
  repeat (split; [assumption|]).
  exact (hls_to_rgb_extreme_lightness 210 70 H210 H70).
Defined.

Lemma hls_to_rgb_total_witness :
  0 <= 210 <= 360 /\ percentage 40 /\ percentage 70 /\
  exists r g b, hls_to_rgb 210 40 70 = Some (r, g, b) /\
                channel r /\ channel g /\ channel b.
Proof.
  assert (H210 : 0 <= 210 <= 360) by lia.
  assert (H40 : percentage 40) by percentages.
  assert (H70 : percentage 70) by percentages.
  repeat (split; [assumption|]).
  exact (hls_to_rgb_total 210 40 70 H210 H40 H70).
Defined.

Lemma set_values_read_back_witness :
  has_ranges (ColorPickerApp.hls_group ColorPickerApp.setup_ui) hls_ranges = true /\
  Forall2 in_range hls_ranges [200; 40; 60] /\
  ColorModelGroup.on_slider_changed
    (ColorModelGroup.set_values
       (ColorPickerApp.hls_group ColorPickerApp.setup_ui) [200; 40; 60])
    2 60 = [200; 40; 60].
Proof.
  assert (Hg : has_ranges (ColorPickerApp.hls_group ColorPickerApp.setup_ui)
                 hls_ranges = true) by reflexivity.
  assert (Hv : Forall2 in_range hls_ranges [200; 40; 60])
    by (apply hls_in_range; percentages).
  repeat (split; [assumption|]).
  exact (set_values_read_back _ hls_ranges [200; 40; 60] 2 60 Hg Hv).
Defined.


Lemma typed_value_bounded_witness :
  ColorSliderGroup.int_of_str
    (ColorSliderGroup.input_text (ColorSliderGroup.mk 0 0 255 128 "300"))
  = Some 300 /\
  ColorSliderGroup.on_input_changed ColorSliderGroup.int_of_str
    (ColorSliderGroup.mk 0 0 255 128 "300")
  = (ColorSliderGroup.mk 0 0 255 255 "255", [(0, 255); (0, 255)]).
Proof.
  split; [reflexivity|].
  apply (typed_value_bounded ColorSliderGroup.int_of_str
           (ColorSliderGroup.mk 0 0 255 128 "300") 300).
  - reflexivity.
  - simpl. lia.
  - simpl. lia.
Defined.

Lemma on_rgb_changed_shows_witness :
  as_built ColorPickerApp.setup_ui = true /\
  exists a' c m y k h s l,
    ColorPickerApp.on_rgb_changed ColorPickerApp.setup_ui [300; 20; 30] = Some a' /\
    ColorPickerApp.current_rgb a'
    = (Z.max 0 (Z.min 255 300), Z.max 0 (Z.min 255 20), Z.max 0 (Z.min 255 30)) /\
    rgb_to_cmyk (Z.max 0 (Z.min 255 300)) (Z.max 0 (Z.min 255 20))
                (Z.max 0 (Z.min 255 30)) = Some (c, m, y, k) /\
    rgb_to_hls (Z.max 0 (Z.min 255 300)) (Z.max 0 (Z.min 255 20))
               (Z.max 0 (Z.min 255 30)) = Some (h, s, l) /\
    shown (ColorPickerApp.cmyk_group a') = [c; m; y; k] /\
    shown (ColorPickerApp.hls_group a') = [h; s; l] /\
    ColorPickerApp.rgb_group a' = ColorPickerApp.rgb_group ColorPickerApp.setup_ui /\
    as_built a' = true.
Proof.
  assert (Ha : as_built ColorPickerApp.setup_ui = true) by reflexivity.
  split; [assumption|].
  exact (on_rgb_changed_shows ColorPickerApp.setup_ui 300 20 30 Ha).
Defined.

Lemma on_cmyk_changed_shows_witness :
  as_built ColorPickerApp.setup_ui = true /\
  exists a' r g b h s l,
    ColorPickerApp.on_cmyk_changed ColorPickerApp.setup_ui [10; 20; 30; 40]
    = Some a' /\
    cmyk_to_rgb (Z.max 0 (Z.min 100 10)) (Z.max 0 (Z.min 100 20))
                (Z.max 0 (Z.min 100 30)) (Z.max 0 (Z.min 100 40))
    = Some (r, g, b) /\
    rgb_to_hls r g b = Some (h, s, l) /\
    ColorPickerApp.current_rgb a' = (r, g, b) /\
    shown (ColorPickerApp.rgb_group a') = [r; g; b] /\
    shown (ColorPickerApp.hls_group a') = [h; s; l] /\
    ColorPickerApp.cmyk_group a' = ColorPickerApp.cmyk_group ColorPickerApp.setup_ui /\
    as_built a' = true.
Proof.
  assert (Ha : as_built ColorPickerApp.setup_ui = true) by reflexivity.
  split; [assumption|].
  exact (on_cmyk_changed_shows ColorPickerApp.setup_ui 10 20 30 40 Ha).
Defined.

Lemma on_hls_changed_shows_witness :
  as_built ColorPickerApp.setup_ui = true /\
  exists a' r g b c m y k,
    ColorPickerApp.on_hls_changed ColorPickerApp.setup_ui [210; 40; 70] = Some a' /\
    hls_to_rgb (Z.max 0 (Z.min 360 210)) (Z.max 0 (Z.min 100 40))
               (Z.max 0 (Z.min 100 70)) = Some (r, g, b) /\
    rgb_to_cmyk r g b = Some (c, m, y, k) /\
    ColorPickerApp.current_rgb a' = (r, g, b) /\
    shown (ColorPickerApp.rgb_group a') = [r; g; b] /\
    shown (ColorPickerApp.cmyk_group a') = [c; m; y; k] /\
    ColorPickerApp.hls_group a' = ColorPickerApp.hls_group ColorPickerApp.setup_ui /\
    as_built a' = true.
Proof.
  assert (Ha : as_built ColorPickerApp.setup_ui = true) by reflexivity.
  split; [assumption|].
  exact (on_hls_changed_shows ColorPickerApp.setup_ui 210 40 70 Ha).
Defined.

Lemma rgb_slider_moved_witness :
  as_built ColorPickerApp.setup_ui = true /\ (1 < 3)%nat /\ channel 10 /\
  nth_error (shown (ColorPickerApp.rgb_group ColorPickerApp.setup_ui)) 1
    <> Some 10 /\
  exists a' x1 x2 x3,
    ColorPickerApp.slider_moved ColorPickerApp.setup_ui ColorPickerApp.RGB 1 10
    = Some a' /\
    shown (ColorPickerApp.rgb_group a') = [x1; x2; x3] /\
    ColorPickerApp.current_rgb a' = (x1, x2, x3) /\
    nth_error [x1; x2; x3] 1 = Some 10 /\
    (forall k, k <> 1%nat ->
       nth_error [x1; x2; x3] k
       = nth_error (shown (ColorPickerApp.rgb_group ColorPickerApp.setup_ui)) k) /\
    as_built a' = true.
Proof.
  assert (Ha : as_built ColorPickerApp.setup_ui = true) by reflexivity.
  assert (Hn : (1 < 3)%nat) by lia.
  assert (Hv : channel 10) by channels.
  assert (Hne : nth_error (shown (ColorPickerApp.rgb_group ColorPickerApp.setup_ui)) 1
                <> Some 10) by (simpl; discriminate).
  repeat (split; [assumption|]).
  exact (rgb_slider_moved ColorPickerApp.setup_ui 1 10 Ha Hn Hv Hne).
Defined.

Lemma gray_then_hue_gives_black_witness :
  as_built ColorPickerApp.setup_ui = true /\ channel 200 /\ 0 < 90 <= 360 /\
  exists a1 a2 l,
    ColorPickerApp.on_rgb_changed ColorPickerApp.setup_ui [200; 200; 200]
    = Some a1 /\
    ColorPickerApp.current_rgb a1 = (200, 200, 200) /\
    shown (ColorPickerApp.hls_group a1) = [0; 0; l] /\
    ColorPickerApp.slider_moved a1 ColorPickerApp.HLS 0 90 = Some a2 /\
    shown (ColorPickerApp.hls_group a2) = [90; 0; l] /\
    ColorPickerApp.current_rgb a2 = (0, 0, 0).
Proof.
  assert (Ha : as_built ColorPickerApp.setup_ui = true) by reflexivity.
  assert (Hr : channel 200) by channels.
  assert (Hv : 0 < 90 <= 360) by lia.
  repeat (split; [assumption|]).
  exact (gray_then_hue_gives_black ColorPickerApp.setup_ui 200 90 Ha Hr Hv).
Defined.

Lemma on_rgb_changed_idempotent_witness :
  as_built ColorPickerApp.setup_ui = true /\
  exists a',
    ColorPickerApp.on_rgb_changed ColorPickerApp.setup_ui [10; 20; 30] = Some a' /\
    ColorPickerApp.on_rgb_changed a' [10; 20; 30] = Some a'.
Proof.
  assert (Ha : as_built ColorPickerApp.setup_ui = true) by reflexivity.
  split; [assumption|].
  exact (on_rgb_changed_idempotent ColorPickerApp.setup_ui 10 20 30 Ha).
Defined.

Lemma pick_color_shows_witness :
  as_built ColorPickerApp.setup_ui = true /\
  channel 10 /\ channel 20 /\ channel 30 /\
  ColorPickerApp.pick_color ColorPickerApp.setup_ui None
  = Some ColorPickerApp.setup_ui /\
  exists a' c m y k,
    ColorPickerApp.pick_color ColorPickerApp.setup_ui (Some (10, 20, 30))
    = Some a' /\
    ColorPickerApp.current_rgb a' = (10, 20, 30) /\
    shown (ColorPickerApp.rgb_group a') = [10; 20; 30] /\
    rgb_to_cmyk 10 20 30 = Some (c, m, y, k) /\
    shown (ColorPickerApp.cmyk_group a') = [c; m; y; k] /\
    as_built a' = true.
Proof.
  assert (Ha : as_built ColorPickerApp.setup_ui = true) by reflexivity.
  assert (H10 : channel 10) by channels.
  assert (H20 : channel 20) by channels.
  assert (H30 : channel 30) by channels.
  repeat (split; [assumption|]).
  exact (pick_color_shows ColorPickerApp.setup_ui 10 20 30 Ha H10 H20 H30).
Defined.
